(** * Minesweeper: the board engine of [minesweeper-Game.cpp]

    A shallow embedding of the class [Minesweeper] (mine placement,
    adjacency counts, flood-fill reveal, flags, win check) and of
    [getDifficultySettings], followed by the properties of the
    specification that concern them.

    Conventions.
    - A C++ [int] is a [Z].  Coordinates only ever move by one step from a
      valid cell, [minesPlaced] stays below [totalMines] and a neighbour
      count below 9, so their arithmetic is written with plain [Z]
      operations; the counters of [checkWin] and the two places where the
      product [rows * cols] is formed ([checkWin] and
      [getDifficultySettings]) use 32-bit wrap-around arithmetic.
    - [vector<vector<T>>] is a [list (list T)], read with [at2] and
      written with [put2].  The code guards every indexed access with
      [isValid] (or draws the index with [rand() % n]).
    - [rand()] is a stream [nat -> Z] of draws together with the position
      of the next draw.
    - Loops that need not terminate, and the recursion of [revealCell],
      take a [fuel] argument. *)

From stdpp Require Import base list list_numbers.
From Stdlib Require Import ZArith Lia.

Local Open Scope Z_scope.

(** ** Machine integers *)

Module Int.
Definition min_int : Z := - 2 ^ 31.
Definition max_int : Z := 2 ^ 31 - 1.

Definition in_range (z : Z) : Prop := min_int <= z <= max_int.

(** Two's-complement wrap-around of a mathematical result. *)
Definition wrap (z : Z) : Z := (z + 2 ^ 31) mod 2 ^ 32 - 2 ^ 31.

Definition add (a b : Z) : Z := wrap (a + b).
Definition sub (a b : Z) : Z := wrap (a - b).
Definition mul (a b : Z) : Z := wrap (a * b).
End Int.

(** ** Two-dimensional vectors *)

Section Grid.
Context {A : Type}.

(** [g[x][y]], with [d] standing for the value read outside the vector. *)
Definition at2 (d : A) (g : list (list A)) (x y : Z) : A :=
  if (x <? 0) || (y <? 0) then d
  else match g !! Z.to_nat x with
       | Some row => match row !! Z.to_nat y with
                     | Some v => v
                     | None => d
                     end
       | None => d
       end.

(** [g[x][y] = v]; nothing is written outside the vector. *)
Definition put2 (g : list (list A)) (x y : Z) (v : A) : list (list A) :=
  if (x <? 0) || (y <? 0) then g
  else alter (fun row => <[Z.to_nat y := v]> row) (Z.to_nat x) g.

(** [resize(r, vector<A>(c, v))] on an empty vector. *)
Definition fill2 (r c : Z) (v : A) : list (list A) :=
  replicate (Z.to_nat r) (replicate (Z.to_nat c) v).

(** A vector of [r] rows of [c] entries each. *)
Definition dims (r c : Z) (g : list (list A)) : Prop :=
  length g = Z.to_nat r /\ Forall (fun row => length row = Z.to_nat c) g.
End Grid.

(** ** The board *)

Abbreviation cell := (Z * Z)%type.

Record Minesweeper : Type := mkMinesweeper {
  rows : Z;
  cols : Z;
  totalMines : Z;
  grid : list (list Z);          (* -1 = mine, 0-8 = number of adjacent mines *)
  revealed : list (list bool);
  flagged : list (list bool);
  gameOver : bool;
  gameWon : bool
}.

Definition set_revealed (b : Minesweeper) (r : list (list bool)) : Minesweeper :=
  mkMinesweeper (rows b) (cols b) (totalMines b) (grid b) r (flagged b)
                (gameOver b) (gameWon b).

Definition set_flagged (b : Minesweeper) (f : list (list bool)) : Minesweeper :=
  mkMinesweeper (rows b) (cols b) (totalMines b) (grid b) (revealed b) f
                (gameOver b) (gameWon b).

Definition set_gameOver (b : Minesweeper) (v : bool) : Minesweeper :=
  mkMinesweeper (rows b) (cols b) (totalMines b) (grid b) (revealed b)
                (flagged b) v (gameWon b).

Definition set_gameWon (b : Minesweeper) (v : bool) : Minesweeper :=
  mkMinesweeper (rows b) (cols b) (totalMines b) (grid b) (revealed b)
                (flagged b) (gameOver b) v.

(** Directions of the 8 adjacent cells. *)
Definition dx : list Z := [-1; -1; -1; 0; 0; 1; 1; 1].
Definition dy : list Z := [-1; 0; 1; -1; 1; -1; 0; 1].

(** The cells [(x + dx[k], y + dy[k])] for [k = 0 .. 7], in loop order. *)
Definition neighbours (x y : Z) : list cell :=
  map (fun k => (x + nth k dx 0, y + nth k dy 0)) (seq 0 8).

Definition isValid (r c x y : Z) : bool :=
  (0 <=? x) && (x <? r) && (0 <=? y) && (y <? c).

Definition isMine (g : list (list Z)) (x y : Z) : bool := at2 0 g x y =? -1.

(** What a call can do besides returning. *)
Inductive outcome (A : Type) : Type :=
| Ok (a : A)
| OutOfFuel          (* the loop did not finish within the fuel given *)
| Undefined          (* [rand() % 0] *)
| LengthError.       (* a vector of negative size was requested *)
Arguments Ok {A} a.
Arguments OutOfFuel {A}.
Arguments Undefined {A}.
Arguments LengthError {A}.

(** ** Construction *)

(** [placeMines]: the [while (minesPlaced < totalMines)] loop.  [k] is the
    position of the next draw in the stream [rnd]. *)
Fixpoint placeMines_loop (fuel : nat) (rnd : nat -> Z) (r c total : Z)
    (k : nat) (minesPlaced : Z) (g : list (list Z)) : outcome (list (list Z)) :=
  if minesPlaced <? total then
    match fuel with
    | O => OutOfFuel
    | S fuel' =>
        if (r =? 0) || (c =? 0) then Undefined
        else
          let x := Z.rem (rnd k) r in
          let y := Z.rem (rnd (S k)) c in
          if negb (at2 0 g x y =? -1)
          then placeMines_loop fuel' rnd r c total (S (S k)) (minesPlaced + 1)
                               (put2 g x y (-1))
          else placeMines_loop fuel' rnd r c total (S (S k)) minesPlaced g
    end
  else Ok g.

Definition placeMines (fuel : nat) (rnd : nat -> Z) (r c total : Z)
    (g : list (list Z)) : outcome (list (list Z)) :=
  placeMines_loop fuel rnd r c total 0%nat 0 g.

(** The inner [for k] loop of [calculateNumbers]. *)
Definition countAdjacent (r c : Z) (g : list (list Z)) (i j : Z) : Z :=
  foldl (fun count n => if isValid r c n.1 n.2 && (at2 0 g n.1 n.2 =? -1)
                        then count + 1 else count)
        0 (neighbours i j).

Definition calculateNumbers_cell (r c : Z) (g : list (list Z)) (i j : Z)
    : list (list Z) :=
  if negb (at2 0 g i j =? -1) then put2 g i j (countAdjacent r c g i j) else g.

Definition calculateNumbers (r c : Z) (g : list (list Z)) : list (list Z) :=
  foldl (fun g i => foldl (fun g j => calculateNumbers_cell r c g i j)
                          g (seqZ 0 c))
        g (seqZ 0 r).

(** The constructor.  A negative size makes [vector] throw before anything
    else happens. *)
Definition Minesweeper_new (fuel : nat) (rnd : nat -> Z) (r c mines : Z)
    : outcome Minesweeper :=
  if (r <? 0) || (c <? 0) then LengthError
  else
    match placeMines fuel rnd r c mines (fill2 r c 0) with
    | Ok g => Ok (mkMinesweeper r c mines (calculateNumbers r c g)
                                (fill2 r c false) (fill2 r c false)
                                false false)
    | OutOfFuel => OutOfFuel
    | Undefined => Undefined
    | LengthError => LengthError
    end.

(** ** Playing *)

(** The [for k] loop of [revealCell], over a reveal operation [rec]. *)
Fixpoint revealAll (rec : Minesweeper -> Z -> Z -> option Minesweeper)
    (l : list cell) (b : Minesweeper) : option Minesweeper :=
  match l with
  | [] => Some b
  | n :: l' => match rec b n.1 n.2 with
               | Some b' => revealAll rec l' b'
               | None => None
               end
  end.

(** [revealCell]; [None] when the recursion is deeper than [fuel]. *)
Fixpoint revealCell (fuel : nat) (b : Minesweeper) (x y : Z)
    : option Minesweeper :=
  match fuel with
  | O => None
  | S fuel' =>
      if negb (isValid (rows b) (cols b) x y)
         || at2 false (revealed b) x y || at2 false (flagged b) x y
      then Some b
      else
        let b1 := set_revealed b (put2 (revealed b) x y true) in
        if at2 0 (grid b1) x y =? -1 then Some (set_gameOver b1 true)
        else if at2 0 (grid b1) x y =? 0
             then revealAll (revealCell fuel') (neighbours x y) b1
             else Some b1
  end.

Definition toggleFlag (b : Minesweeper) (x y : Z) : Minesweeper :=
  if negb (isValid (rows b) (cols b) x y) || at2 false (revealed b) x y
  then b
  else set_flagged b (put2 (flagged b) x y (negb (at2 false (flagged b) x y))).

(** The counting loops of [checkWin]: [(revealedCount, correctFlags)]. *)
Definition checkWin_counts (b : Minesweeper) : Z * Z :=
  foldl (fun acc i =>
           foldl (fun acc j =>
                    (if at2 false (revealed b) i j
                        && negb (at2 0 (grid b) i j =? -1)
                     then Int.add acc.1 1 else acc.1,
                     if at2 false (flagged b) i j
                        && (at2 0 (grid b) i j =? -1)
                     then Int.add acc.2 1 else acc.2))
                 acc (seqZ 0 (cols b)))
        (0, 0) (seqZ 0 (rows b)).

(** [checkWin]: the returned flag and the board afterwards. *)
Definition checkWin (b : Minesweeper) : bool * Minesweeper :=
  let revealedCount := (checkWin_counts b).1 in
  if revealedCount =? Int.sub (Int.mul (rows b) (cols b)) (totalMines b)
  then (true, set_gameWon b true)
  else (false, b).

Definition isGameOver (b : Minesweeper) : bool := gameOver b.
Definition isGameWon (b : Minesweeper) : bool := gameWon b.

(** The three-valued status that [playGame] acts on: its loop runs while
    [!gameOver && !gameWon], and once it stops [gameWon] is tested first to
    choose between the winning and the losing message. *)
Inductive GameStatus : Type := InProgress | Won | Lost.

Definition status (b : Minesweeper) : GameStatus :=
  if gameWon b then Won else if gameOver b then Lost else InProgress.

(** ** Difficulty settings *)

(** [getDifficultySettings], as a function of the numbers read from the
    input: the menu choice and, for choice 4, the custom values. *)
Definition getDifficultySettings (choice r c m : Z) : Z * Z * Z :=
  if choice =? 1 then (9, 9, 10)
  else if choice =? 2 then (16, 16, 40)
  else if choice =? 3 then (16, 30, 99)
  else if choice =? 4 then
    if (r <=? 0) || (c <=? 0) || (m <=? 0) || (Int.mul r c <=? m)
    then (9, 9, 10)
    else (r, c, m)
  else (9, 9, 10).

(** [main] up to the construction of the game. *)
Definition main_construct (fuel : nat) (rnd : nat -> Z) (choice r c m : Z)
    : outcome Minesweeper :=
  let '(r', c', m') := getDifficultySettings choice r c m in
  Minesweeper_new fuel rnd r' c' m'.


(** ** Vocabulary of the specification *)

(** Number of entries of [l] that satisfy [f]. *)
Fixpoint count {A : Type} (f : A -> bool) (l : list A) : nat :=
  match l with
  | [] => 0%nat
  | a :: l' => ((if f a then 1 else 0) + count f l')%nat
  end.

(** All cells of an [r] x [c] board, row by row. *)
Definition allCells (r c : Z) : list cell :=
  seqZ 0 r ≫= fun i => (fun j => (i, j)) <$> seqZ 0 c.

(** Number of cells of kind Mine on an [r] x [c] grid. *)
Definition mineCount (r c : Z) (g : list (list Z)) : nat :=
  count (fun p => isMine g p.1 p.2) (allCells r c).

(** Number of mines among the neighbours of [(i, j)] that lie on the board. *)
Definition adjacentMines (r c : Z) (g : list (list Z)) (i j : Z) : nat :=
  count (fun n => isValid r c n.1 n.2 && isMine g n.1 n.2) (neighbours i j).

(** The first [n] cells that [placeMines] draws from the stream [rnd]. *)
Definition draws (rnd : nat -> Z) (r c : Z) (n : nat) : list cell :=
  (fun i => (Z.rem (rnd (2 * i)%nat) r, Z.rem (rnd (S (2 * i))) c)) <$> seq 0 n.

(** Views of one cell of a board. *)
Definition cellValid (b : Minesweeper) (p : cell) : bool :=
  isValid (rows b) (cols b) p.1 p.2.
Definition cellMine (b : Minesweeper) (p : cell) : bool :=
  isMine (grid b) p.1 p.2.
Definition cellNumber (b : Minesweeper) (p : cell) : Z :=
  at2 0 (grid b) p.1 p.2.
Definition cellRevealed (b : Minesweeper) (p : cell) : bool :=
  at2 false (revealed b) p.1 p.2.
Definition cellFlagged (b : Minesweeper) (p : cell) : bool :=
  at2 false (flagged b) p.1 p.2.

(** A cell that [revealCell] would act on. *)
Definition hidden (b : Minesweeper) (p : cell) : bool :=
  cellValid b p && negb (cellRevealed b p) && negb (cellFlagged b p).

(** The three vectors have the board's dimensions. *)
Definition wf (b : Minesweeper) : Prop :=
  0 <= rows b /\ 0 <= cols b /\
  dims (rows b) (cols b) (grid b) /\
  dims (rows b) (cols b) (revealed b) /\
  dims (rows b) (cols b) (flagged b).

(** Every number on the grid is the number of adjacent mines. *)
Definition numbered (b : Minesweeper) : Prop :=
  forall p, cellValid b p = true -> cellMine b p = false ->
    cellNumber b p = Z.of_nat (adjacentMines (rows b) (cols b) (grid b) p.1 p.2).

(** [cascade b p q]: [q] can be reached from [p] by steps to adjacent
    cells, all cells on the way (with [p] and [q]) being hidden in [b] and
    all but possibly [q] carrying the number 0. *)
Inductive cascade (b : Minesweeper) (p : cell) : cell -> Prop :=
| cascade_refl : hidden b p = true -> cascade b p p
| cascade_step q q' :
    cascade b p q -> cellNumber b q = 0 -> q' ∈ neighbours q.1 q.2 ->
    hidden b q' = true -> cascade b p q'.

(** [zeroRegion b p q]: [q] belongs to the connected region of zero-count
    cells that contains [p]. *)
Inductive zeroRegion (b : Minesweeper) (p : cell) : cell -> Prop :=
| zeroRegion_refl :
    cellValid b p = true -> cellNumber b p = 0 -> zeroRegion b p p
| zeroRegion_step q q' :
    zeroRegion b p q -> q' ∈ neighbours q.1 q.2 ->
    cellValid b q' = true -> cellNumber b q' = 0 -> zeroRegion b p q'.

(** [q] is a numbered (non-zero, non-mine) cell bordering the zero region
    of [p]. *)
Definition regionBorder (b : Minesweeper) (p q : cell) : Prop :=
  exists z, zeroRegion b p z /\ q ∈ neighbours z.1 z.2 /\
            cellValid b q = true /\ cellNumber b q ≠ 0 /\ cellMine b q = false.

(** Number of cells of the board that are not revealed. *)
Definition unrevealedCount (b : Minesweeper) : nat :=
  count (fun p => negb (cellRevealed b p)) (allCells (rows b) (cols b)).

(** Enough fuel for any reveal on [b]: every nested call reveals a cell
    that was not revealed before. *)
Definition revealFuel (b : Minesweeper) : nat := S (unrevealedCount b).

Definition reveal (b : Minesweeper) (x y : Z) : option Minesweeper :=
  revealCell (revealFuel b) b x y.

(** The calls a player can make. *)
Inductive command : Type :=
| Reveal (x y : Z)
| ToggleFlag (x y : Z)
| EvaluateWin.

Definition exec (b : Minesweeper) (cmd : command) : option Minesweeper :=
  match cmd with
  | Reveal x y => reveal b x y
  | ToggleFlag x y => Some (toggleFlag b x y)
  | EvaluateWin => Some (checkWin b).2
  end.

Fixpoint play (b : Minesweeper) (cmds : list command) : option Minesweeper :=
  match cmds with
  | [] => Some b
  | cmd :: rest => match exec b cmd with
                   | Some b' => play b' rest
                   | None => None
                   end
  end.

(** A freshly constructed board. *)
Definition constructed (b : Minesweeper) : Prop :=
  exists fuel rnd r c mines, Minesweeper_new fuel rnd r c mines = Ok b.

(** Two grids with the same mines on the [r] x [c] board. *)
Definition sameMines (r c : Z) (g g' : list (list Z)) : Prop :=
  forall x y, isValid r c x y = true -> isMine g' x y = isMine g x y.

(** [b'] differs from [b] at most in [revealed] and [gameOver]. *)
Definition unchangedBut (b b' : Minesweeper) : Prop :=
  rows b' = rows b /\ cols b' = cols b /\ totalMines b' = totalMines b /\
  grid b' = grid b /\ flagged b' = flagged b /\ gameWon b' = gameWon b.

Definition newlyRevealed (b b' : Minesweeper) (p : cell) : Prop :=
  cellRevealed b' p = true /\ cellRevealed b p = false.

(** [b'] is [b] with more cells revealed, all of them in [P]; [gameOver] is
    set exactly if it was set or one of the new cells is a mine. *)
Definition reveals (b : Minesweeper) (P : cell -> Prop) (b' : Minesweeper)
    : Prop :=
  unchangedBut b b' /\ wf b' /\
  (forall p, cellRevealed b p = true -> cellRevealed b' p = true) /\
  (forall p, newlyRevealed b b' p -> P p) /\
  (gameOver b' = true <->
   gameOver b = true \/ exists p, newlyRevealed b b' p /\ cellMine b p = true).

(** Around every newly revealed zero, all cells that can be revealed are. *)
Definition closed (b b' : Minesweeper) : Prop :=
  forall p q, newlyRevealed b b' p -> cellNumber b p = 0 ->
    q ∈ neighbours p.1 p.2 -> cellValid b q = true ->
    cellFlagged b q = false -> cellRevealed b' q = true.

(** What every board met during a game satisfies. *)
Definition consistent (b : Minesweeper) : Prop :=
  wf b /\ numbered b /\
  (forall p, cellRevealed b p = true -> cellFlagged b p = false) /\
  (gameOver b = true <->
   exists p, cellRevealed b p = true /\ cellMine b p = true).

(** What one call of the reveal operation guarantees. *)
Definition revealSpec (b : Minesweeper) (x y : Z) (b' : Minesweeper) : Prop :=
  reveals b (cascade b (x, y)) b' /\ closed b b' /\
  (hidden b (x, y) = true -> cellRevealed b' (x, y) = true).

(** ** Two small boards *)

(** The 2 x 2 board with its only mine at [(0, 0)]. *)
Definition corner_board : Minesweeper :=
  mkMinesweeper 2 2 1 [[-1; 1]; [1; 1]]
                [[false; false]; [false; false]]
                [[false; false]; [false; false]] false false.

(** The 1 x 4 board with its only mine at [(0, 3)]. *)
Definition strip_board : Minesweeper :=
  mkMinesweeper 1 4 1 [[0; 0; 1; -1]]
                [[false; false; false; false]]
                [[false; false; false; false]] false false.

(** ** Display, statistics and the game loop *)

(** The three characters that [displayGrid] prints for one cell. *)
Inductive glyph : Type :=
| GFlag              (* " F " *)
| GHidden            (* " . " *)
| GMine              (* " * " *)
| GBlank             (* "   " *)
| GNumber (n : Z).   (* " n " *)

(** The chain of tests in the inner loop of [displayGrid]. *)
Definition displayCell (b : Minesweeper) (showMines : bool) (i j : Z) : glyph :=
  if at2 false (flagged b) i j && negb showMines then GFlag
  else if negb (at2 false (revealed b) i j) && negb showMines then GHidden
  else if at2 0 (grid b) i j =? -1 then GMine
  else if at2 0 (grid b) i j =? 0 then GBlank
  else GNumber (at2 0 (grid b) i j).

(** [displayGrid]: the column numbers of the header line, then every row
    with its number and the glyphs of its cells. *)
Definition displayGrid (b : Minesweeper) (showMines : bool)
    : list Z * list (Z * list glyph) :=
  (seqZ 0 (cols b),
   (fun i => (i, (fun j => displayCell b showMines i j) <$> seqZ 0 (cols b)))
     <$> seqZ 0 (rows b)).

(** The counting loops of [displayStats]: [(flagsUsed, cellsRevealed)]. *)
Definition displayStats_counts (b : Minesweeper) : Z * Z :=
  foldl (fun acc i =>
           foldl (fun acc j =>
                    (if at2 false (flagged b) i j
                     then Int.add acc.1 1 else acc.1,
                     if at2 false (revealed b) i j
                     then Int.add acc.2 1 else acc.2))
                 acc (seqZ 0 (cols b)))
        (0, 0) (seqZ 0 (rows b)).

(** [displayStats]: the four numbers of the line it prints, in order
    (mines, flags used, cells revealed, cells to reveal). *)
Definition displayStats (b : Minesweeper) : Z * Z * Z * Z :=
  (totalMines b, (displayStats_counts b).1, (displayStats_counts b).2,
   Int.sub (Int.mul (rows b) (cols b)) (totalMines b)).

(** What [playGame] reads: the command character and, after ['r'] and
    ['f'], the two coordinates. *)
Inductive input : Type :=
| InQuit                  (* q *)
| InReveal (x y : Z)      (* r x y *)
| InFlag (x y : Z)        (* f x y *)
| InOther.                (* any other character *)

(** The fixed texts of [playGame]. *)
Inductive message : Type :=
| Welcome | EnterCommand | ThanksForPlaying
| InvalidCoordinates | InvalidCommand
| Congratulations | HitAMine.

(** What [playGame] writes. *)
Inductive event : Type :=
| ShowGrid (d : list Z * list (Z * list glyph))
| ShowStats (s : Z * Z * Z * Z)
| Say (m : message).

(** How a run of [playGame] over a finite input stops. *)
Inductive ending : Type :=
| Finished            (* the loop condition failed: final display and verdict *)
| Quitted             (* the command q *)
| InputExhausted      (* the input ran out while the game was in progress *)
| TooDeep.            (* a reveal did not return within its fuel *)

(** The [if (checkWin()) gameWon = true;] after a command. *)
Definition afterCommand (b : Minesweeper) : Minesweeper :=
  if (checkWin b).1 then set_gameWon (checkWin b).2 true else (checkWin b).2.

(** The [while (!gameOver && !gameWon)] loop of [playGame] and what
    follows it. *)
Fixpoint playGame_loop (b : Minesweeper) (ins : list input)
    : list event * Minesweeper * ending :=
  if negb (gameOver b) && negb (gameWon b) then
    let shown := [ShowGrid (displayGrid b false); ShowStats (displayStats b);
                  Say EnterCommand] in
    match ins with
    | [] => (shown, b, InputExhausted)
    | InQuit :: _ => (shown ++ [Say ThanksForPlaying], b, Quitted)
    | InReveal x y :: rest =>
        if negb (isValid (rows b) (cols b) x y)
        then let '(evs, b', e) := playGame_loop b rest in
             (shown ++ Say InvalidCoordinates :: evs, b', e)
        else match reveal b x y with
             | Some b1 =>
                 let '(evs, b', e) := playGame_loop (afterCommand b1) rest in
                 (shown ++ evs, b', e)
             | None => (shown, b, TooDeep)
             end
    | InFlag x y :: rest =>
        if negb (isValid (rows b) (cols b) x y)
        then let '(evs, b', e) := playGame_loop b rest in
             (shown ++ Say InvalidCoordinates :: evs, b', e)
        else let '(evs, b', e) :=
               playGame_loop (afterCommand (toggleFlag b x y)) rest in
             (shown ++ evs, b', e)
    | InOther :: rest =>
        let '(evs, b', e) := playGame_loop b rest in
        (shown ++ Say InvalidCommand :: evs, b', e)
    end
  else
    ([ShowGrid (displayGrid b true);
      Say (if gameWon b then Congratulations else HitAMine)], b, Finished).

Definition playGame (b : Minesweeper) (ins : list input)
    : list event * Minesweeper * ending :=
  let '(evs, b', e) := playGame_loop b ins in (Say Welcome :: evs, b', e).

(** [main]: the settings, the construction and the game. *)
Definition main (fuel : nat) (rnd : nat -> Z) (choice r c m : Z)
    (ins : list input) : outcome (list event * Minesweeper * ending) :=
  match main_construct fuel rnd choice r c m with
  | Ok b => Ok (playGame b ins)
  | OutOfFuel => OutOfFuel
  | Undefined => Undefined
  | LengthError => LengthError
  end.

(** ** More vocabulary *)

(** A configuration that [getDifficultySettings] lets through. *)
Definition validConfig (r c mines : Z) : Prop :=
  0 < r /\ 0 < c /\ 0 < mines < r * c.

(** A board as [main] constructs it: from a valid configuration, with the
    non-negative draws of [rand()], and small enough for [int] counters. *)
Definition started (b : Minesweeper) : Prop :=
  exists fuel rnd r c mines,
    validConfig r c mines /\ r * c <= Int.max_int /\
    (forall k, 0 <= rnd k) /\ Minesweeper_new fuel rnd r c mines = Ok b.

(** What every board of a game started that way satisfies. *)
Definition sound (b : Minesweeper) : Prop :=
  consistent b /\ rows b * cols b <= Int.max_int /\
  Z.of_nat (mineCount (rows b) (cols b) (grid b)) = totalMines b /\
  totalMines b < rows b * cols b.

(** Every cell that is not a mine is revealed. *)
Definition allSafeRevealed (b : Minesweeper) : Prop :=
  forall p, cellValid b p = true -> cellMine b p = false ->
    cellRevealed b p = true.

(** Some glyph of a display is a mine. *)
Definition showsMine (d : list Z * list (Z * list glyph)) : Prop :=
  exists row, row ∈ d.2 /\ GMine ∈ row.2.

(** What holds of the board each time [playGame] tests its loop
    condition. *)
Definition inGame (b : Minesweeper) : Prop :=
  sound b /\ (gameWon b = true <-> allSafeRevealed b) /\
  (gameOver b = true -> gameWon b = false).

(** What a run of the loop guarantees, started in a board [b]. *)
Definition loopResult (b : Minesweeper)
    (res : list event * Minesweeper * ending) : Prop :=
  res.2 <> TooDeep /\ inGame res.1.2 /\
  (exists cmds, play b cmds = Some res.1.2) /\
  (res.2 = Finished ->
   (gameOver res.1.2 = true \/ gameWon res.1.2 = true) /\
   exists evs0,
     res.1.1 = evs0 ++ [ShowGrid (displayGrid res.1.2 true);
                        Say (if gameWon res.1.2 then Congratulations
                             else HitAMine)]) /\
  (res.2 <> Finished -> gameOver res.1.2 = false /\ gameWon res.1.2 = false) /\
  (forall d, ShowGrid d ∈ res.1.1 ->
     ~ showsMine d \/ (res.2 = Finished /\ d = displayGrid res.1.2 true)).

(** The calls that reveal, one by one, the cells of [l] that are not
    mines. *)
Definition revealSafe (b : Minesweeper) (l : list cell) : list command :=
  (fun p => Reveal p.1 p.2) <$> filter (fun p => cellMine b p = false) l.
(** * Properties *)

(** Unfolds the bounds of [int]. *)
Ltac int_bounds := unfold Int.in_range, Int.min_int, Int.max_int in *.

(** ** Reading and writing two-dimensional vectors *)

Section GridFacts.
Context {A : Type}.
Implicit Types (g : list (list A)) (d v : A) (x y r c : Z).

Lemma at2_put2_ne d g x y x' y' v :
  (x, y) ≠ (x', y') → at2 d (put2 g x y v) x' y' = at2 d g x' y'.
Proof.
  intros Hne. unfold at2, put2.
  destruct ((x' <? 0) || (y' <? 0)) eqn:E'; [done|].
  destruct ((x <? 0) || (y <? 0)) eqn:E; [done|].
  apply orb_false_elim in E as [Ex Ey], E' as [Ex' Ey'].
  apply Z.ltb_ge in Ex, Ey, Ex', Ey'.
  destruct (decide (Z.to_nat x = Z.to_nat x')) as [Hx|Hx].
  - rewrite <- Hx, list_lookup_alter_eq.
    destruct (g !! Z.to_nat x) as [row|]; simpl; [|done].
    rewrite list_lookup_insert_ne; [done|].
    intros Hy. apply Hne. f_equal; lia.
  - by rewrite list_lookup_alter_ne.
Qed.

Lemma at2_put2_eq d g r c x y v :
  dims r c g → 0 <= x < r → 0 <= y < c → at2 d (put2 g x y v) x y = v.
Proof.
  intros [Hlen Hrows] Hx Hy. unfold at2, put2.
  replace ((x <? 0) || (y <? 0)) with false
    by (symmetry; apply orb_false_intro; apply Z.ltb_ge; lia).
  rewrite list_lookup_alter_eq.
  destruct (lookup_lt_is_Some_2 g (Z.to_nat x)) as [row Hrow]; [lia|].
  rewrite Hrow. simpl.
  rewrite list_lookup_insert_eq; [done|].
  rewrite Forall_forall in Hrows.
  rewrite (Hrows row); [lia|]. by eapply list_elem_of_lookup_2.
Qed.

Lemma dims_put2 r c g x y v : dims r c g → dims r c (put2 g x y v).
Proof.
  intros [Hlen Hrows]. unfold put2.
  destruct ((x <? 0) || (y <? 0)); [done|]. split.
  - by rewrite length_alter.
  - apply Forall_alter; [done|]. intros row _ Hr. by rewrite length_insert.
Qed.

Lemma dims_fill2 r c v : dims r c (fill2 r c v).
Proof.
  split; [apply length_replicate|].
  apply Forall_replicate. apply length_replicate.
Qed.

Lemma at2_fill2 d r c v x y :
  0 <= x < r → 0 <= y < c → at2 d (fill2 r c v) x y = v.
Proof.
  intros Hx Hy. unfold at2, fill2.
  replace ((x <? 0) || (y <? 0)) with false
    by (symmetry; apply orb_false_intro; apply Z.ltb_ge; lia).
  rewrite lookup_replicate_2 by lia. by rewrite lookup_replicate_2 by lia.
Qed.
End GridFacts.

(** ** Counting and the list of all cells *)

Section CountFacts.
Context {A : Type}.
Implicit Types (f h : A -> bool) (l : list A).

Lemma count_ext f h l :
  (forall a, a ∈ l → f a = h a) → count f l = count h l.
Proof.
  induction l as [|a l IH]; intros Hfh; simpl; [done|].
  rewrite (Hfh a) by left. rewrite IH; [done|].
  intros a' Ha'. apply Hfh. by right.
Qed.

Lemma count_le_length f l : (count f l <= length l)%nat.
Proof. induction l as [|a l IH]; simpl; [lia|]. destruct (f a); lia. Qed.

Lemma count_mono f h l :
  (forall a, a ∈ l → f a = true → h a = true) → (count f l <= count h l)%nat.
Proof.
  induction l as [|a l IH]; intros Hfh; simpl; [lia|].
  assert (count f l <= count h l)%nat as Hle.
  { apply IH. intros a' Ha'. apply Hfh. by right. }
  destruct (f a) eqn:Efa; [|lia].
  rewrite (Hfh a) by (done || left). lia.
Qed.

(** Switching one entry of a duplicate-free list on adds one. *)
Lemma count_switch_on f h l a :
  NoDup l → a ∈ l → f a = false → h a = true →
  (forall a', a' ≠ a → h a' = f a') →
  count h l = S (count f l).
Proof.
  intros Hnd Hin Hfa Hha Hoth.
  induction Hnd as [|a0 l Hnotin Hnd IH]; [by apply elem_of_nil in Hin|].
  simpl. apply elem_of_cons in Hin as [->|Hin].
  - rewrite Hfa, Hha. f_equal. simpl. apply count_ext.
    intros a' Ha'. apply Hoth. intros ->. done.
  - rewrite IH by done. rewrite (Hoth a0); [lia|]. intros ->. done.
Qed.

Lemma count_none f l : (forall a, a ∈ l → f a = false) → count f l = 0%nat.
Proof.
  induction l as [|a l IH]; intros Hall; simpl; [done|].
  rewrite (Hall a) by left. rewrite IH; [done|].
  intros a' Ha'. apply Hall. by right.
Qed.

(** Entries counted by [f] and by its complement add up to the length. *)
Lemma count_negb f l : (count f l + count (fun a => negb (f a)) l = length l)%nat.
Proof. induction l as [|a l IH]; simpl; [done|]. destruct (f a); simpl; lia. Qed.

Lemma count_zero_elem f l a : count f l = 0%nat → a ∈ l → f a = false.
Proof.
  induction l as [|a0 l IH]; intros Hz Hin; [by apply elem_of_nil in Hin|].
  simpl in Hz. apply elem_of_cons in Hin as [->|Hin].
  - destruct (f a0); [discriminate|done].
  - apply IH; [|done]. destruct (f a0); [discriminate|done].
Qed.

Lemma count_strict f h l a :
  (forall a', a' ∈ l → f a' = true → h a' = true) →
  a ∈ l → f a = false → h a = true → (count f l < count h l)%nat.
Proof.
  induction l as [|a0 l IH]; intros Hfh Hin Hfa Hha;
    [by apply elem_of_nil in Hin|].
  simpl.
  assert (count f l <= count h l)%nat as Hle.
  { apply count_mono. intros a' Ha'. apply Hfh. by right. }
  apply elem_of_cons in Hin as [<-|Hin].
  - rewrite Hfa, Hha. lia.
  - assert (count f l < count h l)%nat as Hlt.
    { apply IH; try done. intros a' Ha'. apply Hfh. by right. }
    destruct (f a0) eqn:Efa0; [|lia]. rewrite (Hfh a0) by (done || left). lia.
Qed.
End CountFacts.

Lemma foldl_bind {A B C : Type} (f : A -> C -> A) (k : B -> list C)
    (l : list B) (a : A) :
  foldl f a (l ≫= k) = foldl (fun a x => foldl f a (k x)) a l.
Proof.
  revert a. induction l as [|x l IH]; intros a; simpl; [done|].
  by rewrite foldl_app, IH.
Qed.

Lemma foldl_ext {A B : Type} (f h : A -> B -> A) (l : list B) (a : A) :
  (forall a x, f a x = h a x) → foldl f a l = foldl h a l.
Proof.
  intros Hfh. revert a. induction l as [|x l IH]; intros a; simpl; [done|].
  by rewrite Hfh, IH.
Qed.

Lemma foldl_fmap {A B C : Type} (f : A -> C -> A) (k : B -> C)
    (l : list B) (a : A) :
  foldl f a (k <$> l) = foldl (fun a x => f a (k x)) a l.
Proof. revert a. induction l as [|x l IH]; intros a; simpl; [done|]. apply IH. Qed.

Lemma elem_of_allCells r c x y :
  (x, y) ∈ allCells r c ↔ isValid r c x y = true.
Proof.
  unfold allCells, isValid. rewrite list_elem_of_bind. split.
  - intros (i & Hj & Hi). apply list_elem_of_fmap in Hj as (j & Heq & Hj).
    inversion Heq; subst. apply elem_of_seqZ in Hi, Hj.
    repeat (apply andb_true_intro; split);
      first [apply Z.leb_le | apply Z.ltb_lt]; lia.
  - intros H. repeat (apply andb_prop in H as [H ?]).
    apply Z.leb_le in H. repeat match goal with
      | H : (_ <? _) = true |- _ => apply Z.ltb_lt in H
      | H : (_ <=? _) = true |- _ => apply Z.leb_le in H end.
    exists x. split; [|apply elem_of_seqZ; lia].
    apply list_elem_of_fmap. exists y. split; [done|]. apply elem_of_seqZ; lia.
Qed.

Lemma NoDup_allCells r c : NoDup (allCells r c).
Proof.
  unfold allCells. apply NoDup_bind.
  - intros i1 i2 p _ _ H1 H2.
    apply list_elem_of_fmap in H1 as (j1 & -> & _).
    apply list_elem_of_fmap in H2 as (j2 & Heq & _). by inversion Heq.
  - intros i _. apply NoDup_fmap_2; [|apply NoDup_seqZ].
    intros j1 j2 Heq. by inversion Heq.
  - apply NoDup_seqZ.
Qed.

Lemma length_allCells r c :
  0 <= r → 0 <= c → Z.of_nat (length (allCells r c)) = r * c.
Proof.
  intros Hr Hc. unfold allCells.
  assert (forall l : list Z,
    Z.of_nat (length (l ≫= fun i => (fun j => (i, j)) <$> seqZ 0 c))
    = Z.of_nat (length l) * c) as Hlen.
  { induction l as [|i l IH]; csimpl; [done|].
    rewrite length_app, length_fmap, length_seqZ, Nat2Z.inj_add, IH. lia. }
  rewrite Hlen, length_seqZ. lia.
Qed.

Lemma isValid_bounds r c x y :
  isValid r c x y = true ↔ 0 <= x < r ∧ 0 <= y < c.
Proof.
  unfold isValid. rewrite !andb_true_iff, !Z.leb_le, !Z.ltb_lt. lia.
Qed.

Lemma neighbours_unfold x y :
  neighbours x y =
  [(x + -1, y + -1); (x + -1, y + 0); (x + -1, y + 1); (x + 0, y + -1);
   (x + 0, y + 1); (x + 1, y + -1); (x + 1, y + 0); (x + 1, y + 1)].
Proof. reflexivity. Qed.

Lemma length_neighbours x y : length (neighbours x y) = 8%nat.
Proof. reflexivity. Qed.

(** ** Adjacency counts *)

Lemma countAdjacent_spec r c g i j :
  countAdjacent r c g i j = Z.of_nat (adjacentMines r c g i j).
Proof.
  unfold countAdjacent, adjacentMines, isMine.
  generalize (neighbours i j) as l. intros l.
  assert (forall a,
    foldl (fun count n => if isValid r c n.1 n.2 && (at2 0 g n.1 n.2 =? -1)
                          then count + 1 else count) a l
    = a + Z.of_nat (count (fun n => isValid r c n.1 n.2
                                    && (at2 0 g n.1 n.2 =? -1)) l)) as H.
  { induction l as [|n l IH]; intros a; simpl; [lia|].
    rewrite IH. destruct (isValid r c n.1 n.2 && (at2 0 g n.1 n.2 =? -1)); lia. }
  rewrite H. lia.
Qed.

Lemma adjacentMines_le_8 r c g i j : (adjacentMines r c g i j <= 8)%nat.
Proof.
  unfold adjacentMines. rewrite <- (length_neighbours i j). apply count_le_length.
Qed.

Lemma adjacentMines_same r c g g' i j :
  sameMines r c g g' → adjacentMines r c g' i j = adjacentMines r c g i j.
Proof.
  intros Hsame. apply count_ext. intros [x y] _. simpl.
  destruct (isValid r c x y) eqn:Ev; [|done]. simpl. by apply Hsame.
Qed.

Lemma sameMines_refl r c g : sameMines r c g g.
Proof. by intros x y _. Qed.

Lemma sameMines_trans r c g1 g2 g3 :
  sameMines r c g1 g2 → sameMines r c g2 g3 → sameMines r c g1 g3.
Proof. intros H12 H23 x y Hv. rewrite H23, H12; done. Qed.

Lemma mineCount_same r c g g' :
  sameMines r c g g' → mineCount r c g' = mineCount r c g.
Proof.
  intros Hsame. apply count_ext. intros [x y] Hin. simpl.
  apply Hsame. by apply elem_of_allCells.
Qed.

(** One iteration of the double loop: only cell [(i, j)] is written, and
    only with a number. *)
Lemma calculateNumbers_cell_spec r c g i j :
  dims r c g → isValid r c i j = true →
  dims r c (calculateNumbers_cell r c g i j) ∧
  sameMines r c g (calculateNumbers_cell r c g i j) ∧
  (forall x y, (x, y) ≠ (i, j) →
     at2 0 (calculateNumbers_cell r c g i j) x y = at2 0 g x y) ∧
  (isMine g i j = false →
     at2 0 (calculateNumbers_cell r c g i j) i j = countAdjacent r c g i j) ∧
  (isMine g i j = true → calculateNumbers_cell r c g i j = g).
Proof.
  intros Hd Hv. apply isValid_bounds in Hv as Hb. destruct Hb as [Hi Hj].
  unfold calculateNumbers_cell, isMine.
  destruct (at2 0 g i j =? -1) eqn:Em; simpl.
  - split_and!; first [done | apply sameMines_refl].
  - assert (at2 0 (put2 g i j (countAdjacent r c g i j)) i j
            = countAdjacent r c g i j) as Hput by by eapply at2_put2_eq.
    split_and!; try done.
    + by apply dims_put2.
    + intros x y _. unfold isMine.
      destruct (decide ((x, y) = (i, j))) as [Heq|Hne].
      * inversion Heq; subst x y. rewrite Hput, Em, countAdjacent_spec.
        apply Z.eqb_neq. lia.
      * rewrite at2_put2_ne; [done|]. congruence.
    + intros x y Hne. apply at2_put2_ne. congruence.
Qed.

(** The double loop visits the cells of [allCells] in order. *)
Lemma calculateNumbers_flat r c g :
  calculateNumbers r c g
  = foldl (fun g p => calculateNumbers_cell r c g p.1 p.2) g (allCells r c).
Proof.
  unfold calculateNumbers, allCells. rewrite foldl_bind.
  apply foldl_ext. intros g' i. by rewrite foldl_fmap.
Qed.

(** Invariant of the loop over any list [l] of cells of the board, started
    in a grid [g] that has the mines of [g0]. *)
Lemma calculateNumbers_loop r c g0 l :
  (forall p, p ∈ l → isValid r c p.1 p.2 = true) →
  forall g, dims r c g → sameMines r c g0 g →
  let g' := foldl (fun g p => calculateNumbers_cell r c g p.1 p.2) g l in
  dims r c g' ∧ sameMines r c g0 g' ∧
  forall x y, isValid r c x y = true →
    (at2 0 g' x y = at2 0 g x y ∨
     (isMine g0 x y = false ∧ at2 0 g' x y = countAdjacent r c g0 x y)) ∧
    ((x, y) ∈ l → isMine g0 x y = false →
     at2 0 g' x y = countAdjacent r c g0 x y).
Proof.
  induction l as [|[i j] l IH]; intros Hl g Hd Hs; simpl.
  - split_and!; try done. intros x y Hv. split; [by left|].
    intros Hin. by apply elem_of_nil in Hin.
  - assert (isValid r c i j = true) as Hij by (apply (Hl (i, j)); left).
    destruct (calculateNumbers_cell_spec r c g i j Hd Hij)
      as (Hd1 & Hs1 & Hoth & Hnum & Hmine).
    set (g1 := calculateNumbers_cell r c g i j) in *.
    assert (sameMines r c g0 g1) as Hs01 by by eapply sameMines_trans.
    destruct (IH (fun p Hp => Hl p (list_elem_of_further _ _ _ Hp)) g1 Hd1 Hs01)
      as (Hd' & Hs' & Hcells).
    split_and!; try done. intros x y Hv.
    destruct (Hcells x y Hv) as [Hkeep Hin].
    assert (isMine g0 i j = false →
            at2 0 g1 i j = countAdjacent r c g0 i j) as Hnum0.
    { intros Hm. rewrite Hnum by (rewrite (Hs i j Hij); done).
      rewrite !countAdjacent_spec. f_equal. by apply adjacentMines_same. }
    assert (at2 0 g1 x y = at2 0 g x y ∨
            (isMine g0 x y = false ∧ at2 0 g1 x y = countAdjacent r c g0 x y))
      as Hstep.
    { destruct (decide ((x, y) = (i, j))) as [Heq|Hne]; [|left; by apply Hoth].
      inversion Heq; subst x y.
      destruct (isMine g0 i j) eqn:Em0.
      - left. rewrite Hmine; [done|]. by rewrite (Hs i j Hij).
      - right. split; [done|]. by apply Hnum0. }
    split.
    + destruct Hkeep as [Hk|Hk]; [|by right].
      rewrite Hk. done.
    + intros Hin' Hm. apply elem_of_cons in Hin' as [Heq|Hin']; [|by apply Hin].
      inversion Heq; subst x y.
      destruct Hkeep as [Hk|[_ Hk]]; [|done]. rewrite Hk. by apply Hnum0.
Qed.

(** [calculateNumbers] keeps the mines and writes, at every other cell, the
    number of mines around it. *)
Lemma calculateNumbers_spec r c g :
  dims r c g →
  dims r c (calculateNumbers r c g) ∧
  sameMines r c g (calculateNumbers r c g) ∧
  forall x y, isValid r c x y = true →
    isMine (calculateNumbers r c g) x y = false →
    at2 0 (calculateNumbers r c g) x y
    = Z.of_nat (adjacentMines r c (calculateNumbers r c g) x y).
Proof.
  intros Hd. rewrite calculateNumbers_flat.
  destruct (calculateNumbers_loop r c g (allCells r c)
              (fun p Hp => proj1 (elem_of_allCells r c p.1 p.2)
                             ltac:(by destruct p))
              g Hd (sameMines_refl r c g)) as (Hd' & Hs' & Hcells).
  split_and!; try done. intros x y Hv Hm.
  destruct (Hcells x y Hv) as [_ Hin].
  rewrite Hin.
  - rewrite countAdjacent_spec. f_equal. symmetry. by apply adjacentMines_same.
  - by apply elem_of_allCells.
  - by rewrite <- (Hs' x y Hv).
Qed.

(** ** Mine placement *)

Lemma mineCount_put_mine r c g x y :
  dims r c g → isValid r c x y = true → isMine g x y = false →
  mineCount r c (put2 g x y (-1)) = S (mineCount r c g).
Proof.
  intros Hd Hv Hm. unfold mineCount.
  apply isValid_bounds in Hv as Hb. destruct Hb as [Hx Hy].
  apply (count_switch_on _ _ _ (x, y)).
  - apply NoDup_allCells.
  - by apply elem_of_allCells.
  - done.
  - simpl. unfold isMine. by erewrite at2_put2_eq.
  - intros [x' y'] Hne. simpl. unfold isMine. rewrite at2_put2_ne; [done|].
    congruence.
Qed.

Lemma mineCount_fill2 r c : mineCount r c (fill2 r c 0) = 0%nat.
Proof.
  apply count_none. intros [x y] Hin. simpl.
  apply elem_of_allCells, isValid_bounds in Hin as [Hx Hy].
  unfold isMine. by rewrite at2_fill2.
Qed.

Section PlaceMines.
Variables (rnd : nat -> Z) (r c total : Z).
Hypothesis r_pos : 0 < r.
Hypothesis c_pos : 0 < c.

Lemma sizes_nonzero : (r =? 0) || (c =? 0) = false.
Proof. apply orb_false_intro; apply Z.eqb_neq; lia. Qed.

(** Whatever the loop returns has exactly [total] mines. *)
Lemma placeMines_loop_count (any : nat -> Z) fuel :
  (forall k, 0 <= any k) →
  forall k placed g g',
  dims r c g → Z.of_nat (mineCount r c g) = placed → placed <= total →
  placeMines_loop fuel any r c total k placed g = Ok g' →
  dims r c g' ∧ Z.of_nat (mineCount r c g') = total.
Proof.
  intros Hany.
  induction fuel as [|fuel IH]; intros k placed g g' Hd Hcnt Hle; simpl;
    destruct (placed <? total) eqn:Elt; try discriminate;
    try (intros [= <-]; apply Z.ltb_ge in Elt; split; [done|lia]).
  apply Z.ltb_lt in Elt. rewrite sizes_nonzero.
  set (x := Z.rem (any k) r). set (y := Z.rem (any (S k)) c).
  assert (isValid r c x y = true) as Hv.
  { apply isValid_bounds. split; apply Z.rem_bound_pos; auto with lia. }
  destruct (at2 0 g x y =? -1) eqn:Em; simpl.
  - by apply IH.
  - apply IH; [by apply dims_put2| |lia].
    rewrite mineCount_put_mine by done. lia.
Qed.

(** The loop only depends on the draws still to come. *)
Lemma placeMines_loop_shift fuel k j placed g :
  placeMines_loop fuel rnd r c total (k + j) placed g
  = placeMines_loop fuel (fun n => rnd (k + n)%nat) r c total j placed g.
Proof.
  revert j placed g. induction fuel as [|fuel IH]; intros j placed g; simpl;
    [done|].
  destruct (placed <? total); [|done]. destruct ((r =? 0) || (c =? 0)); [done|].
  replace (S (S (k + j))) with (k + S (S j))%nat by lia.
  replace (S (k + j)) with (k + S j)%nat by lia.
  by rewrite !IH.
Qed.
End PlaceMines.

Lemma draws_S rnd r c n :
  draws rnd r c (S n)
  = (Z.rem (rnd 0%nat) r, Z.rem (rnd 1%nat) c)
      :: draws (fun m => rnd (2 + m)%nat) r c n.
Proof.
  unfold draws. simpl seq. rewrite fmap_cons. f_equal.
  rewrite <- fmap_S_seq, <- list_fmap_compose. apply list_fmap_ext.
  intros i m _. simpl.
  replace (m + S (m + 0))%nat with (S (m + (m + 0))) by lia. done.
Qed.

Lemma length_filter_ne {A : Type} `{EqDecision A} (a : A) (l : list A) :
  NoDup l → (length l <= S (length (filter (fun a' => a' ≠ a) l)))%nat.
Proof.
  induction 1 as [|a0 l Hnotin Hnd IH]; simpl; [lia|].
  rewrite filter_cons. destruct (decide (a0 ≠ a)) as [Hne|Heq]; simpl; [lia|].
  assert (a0 = a) as -> by (destruct (decide (a0 = a)); [done|by destruct Heq]).
  assert (filter (fun a' => a' ≠ a) l = l) as ->; [|lia].
  clear IH Hnd. induction l as [|a1 l IH]; [done|].
  apply not_elem_of_cons in Hnotin as [Hne Hnotin].
  rewrite filter_cons_True by done. f_equal. by apply IH.
Qed.

(** If the next [n] draws contain enough distinct cells that are still
    free, the loop finishes within [n] iterations. *)
Lemma placeMines_loop_terminates r c total n :
  0 < r → 0 < c →
  forall rnd placed g (D : list cell),
  (forall k, 0 <= rnd k) → dims r c g → NoDup D →
  (forall p, p ∈ D → p ∈ draws rnd r c n ∧ isMine g p.1 p.2 = false) →
  total - placed <= Z.of_nat (length D) →
  exists g', placeMines_loop n rnd r c total 0%nat placed g = Ok g'.
Proof.
  intros Hr Hc.
  induction n as [|n IH]; intros rnd placed g D Hrnd Hd Hnd HD Hlen; simpl;
    destruct (placed <? total) eqn:Elt; eauto; apply Z.ltb_lt in Elt.
  - destruct D as [|p D]; [simpl in Hlen; lia|].
    destruct (HD p) as [Hin _]; [left|]. by apply elem_of_nil in Hin.
  - rewrite sizes_nonzero by done.
    set (x := Z.rem (rnd 0%nat) r). set (y := Z.rem (rnd 1%nat) c).
    assert (forall p, p ∈ D → p ≠ (x, y) →
            p ∈ draws (fun m => rnd (2 + m)%nat) r c n) as Hrest.
    { intros p Hp Hne. destruct (HD p Hp) as [Hin _].
      rewrite draws_S in Hin. apply elem_of_cons in Hin as [?|?]; done. }
    destruct (at2 0 g x y =? -1) eqn:Em; simpl;
      rewrite (placeMines_loop_shift rnd r c total _ 2 0).
    + apply (IH _ _ _ D); try done.
      intros p Hp. destruct (HD p Hp) as [Hin Hfree]. split; [|done].
      apply Hrest; [done|]. intros ->. simpl in Hfree. unfold isMine in Hfree.
      congruence.
    + apply (IH _ _ _ (filter (fun p => p ≠ (x, y)) D)); try done.
      * by apply dims_put2.
      * by apply NoDup_filter.
      * intros p [Hne Hp]%list_elem_of_filter.
        destruct (HD p Hp) as [_ Hfree]. split; [by apply Hrest|].
        unfold isMine. rewrite at2_put2_ne; [done|]. by destruct p.
      * pose proof (length_filter_ne (x, y) D Hnd). lia.
Qed.

(** A stream that always draws the same cell never gets past one mine. *)
Lemma placeMines_loop_stuck fuel k :
  placeMines_loop fuel (fun _ => 0) 2 2 2 k 1 [[-1; 0]; [0; 0]] = OutOfFuel.
Proof. revert k. induction fuel as [|fuel IH]; intros k; [done|]. apply IH. Qed.

(** ** The constructor *)

Lemma placeMines_loop_dims rnd r c total fuel :
  forall k placed g g',
  dims r c g → placeMines_loop fuel rnd r c total k placed g = Ok g' →
  dims r c g'.
Proof.
  induction fuel as [|fuel IH]; intros k placed g g' Hd; simpl;
    destruct (placed <? total); try discriminate; try (by intros [= <-]).
  destruct ((r =? 0) || (c =? 0)); [discriminate|].
  destruct (negb _); apply IH; try done. by apply dims_put2.
Qed.

(** What a successful construction returns. *)
Lemma Minesweeper_new_Ok fuel rnd r c mines b :
  Minesweeper_new fuel rnd r c mines = Ok b →
  0 <= r ∧ 0 <= c ∧
  exists g, placeMines fuel rnd r c mines (fill2 r c 0) = Ok g ∧
    b = mkMinesweeper r c mines (calculateNumbers r c g)
                      (fill2 r c false) (fill2 r c false) false false.
Proof.
  unfold Minesweeper_new. destruct ((r <? 0) || (c <? 0)) eqn:Eneg;
    [discriminate|].
  apply orb_false_elim in Eneg as [Hr Hc]. apply Z.ltb_ge in Hr, Hc.
  destruct (placeMines fuel rnd r c mines (fill2 r c 0)) as [g| | |] eqn:Ep;
    try discriminate.
  intros [= <-]. eauto.
Qed.

Lemma constructed_wf b : constructed b → wf b.
Proof.
  intros (fuel & rnd & r & c & mines & Hnew).
  apply Minesweeper_new_Ok in Hnew as (Hr & Hc & g & Hp & ->).
  apply placeMines_loop_dims in Hp; [|apply dims_fill2].
  destruct (calculateNumbers_spec r c g Hp) as (Hd & _).
  unfold wf. simpl. split_and!; first [done | apply dims_fill2].
Qed.

Lemma constructed_numbered b : constructed b → numbered b.
Proof.
  intros (fuel & rnd & r & c & mines & Hnew).
  apply Minesweeper_new_Ok in Hnew as (Hr & Hc & g & Hp & ->).
  apply placeMines_loop_dims in Hp; [|apply dims_fill2].
  destruct (calculateNumbers_spec r c g Hp) as (_ & _ & Hnum).
  intros [x y] Hv Hm. by apply Hnum.
Qed.

Lemma constructed_fresh b p :
  constructed b →
  cellRevealed b p = false ∧ cellFlagged b p = false ∧
  gameOver b = false ∧ gameWon b = false.
Proof.
  intros (fuel & rnd & r & c & mines & Hnew).
  apply Minesweeper_new_Ok in Hnew as (Hr & Hc & g & Hp & ->).
  unfold cellRevealed, cellFlagged, at2, fill2. simpl.
  assert (forall x y : Z, (x <? 0) || (y <? 0) = false →
    match replicate (Z.to_nat r) (replicate (Z.to_nat c) false) !! Z.to_nat x
    with Some row => match row !! Z.to_nat y with Some v => v | None => false end
       | None => false end = false) as Hfalse.
  { intros x y _.
    destruct (replicate _ _ !! Z.to_nat x) as [row|] eqn:Erow; [|done].
    apply lookup_replicate in Erow as [-> _].
    destruct (replicate _ _ !! Z.to_nat y) as [v|] eqn:Ev; [|done].
    by apply lookup_replicate in Ev as [-> _]. }
  destruct ((p.1 <? 0) || (p.2 <? 0)) eqn:E; [done|]. by rewrite Hfalse.
Qed.

Lemma wrap_in_range z : Int.in_range z → Int.wrap z = z.
Proof.
  unfold Int.in_range, Int.min_int, Int.max_int, Int.wrap. intros Hz.
  rewrite Z.mod_small; lia.
Qed.

Lemma corner_board_constructed :
  Minesweeper_new 1 (fun _ => 0) 2 2 1 = Ok corner_board.
Proof. reflexivity. Qed.

(** C1 (as stated, refuted): on the valid configuration 2 x 2 with 2 mines,
    the stream that always draws 0 keeps sampling cell (0, 0); the placement
    loop places one mine and then never finishes, whatever the fuel. *)
Lemma placeMines_constant_stream_diverges :
  0 < 2 < 2 * 2 ∧
  ¬ exists fuel b, Minesweeper_new fuel (fun _ => 0) 2 2 2 = Ok b.
Proof.
  split; [lia|]. intros (fuel & b & Hnew).
  apply Minesweeper_new_Ok in Hnew as (_ & _ & g & Hp & _).
  destruct fuel as [|fuel]; [discriminate|].
  unfold placeMines in Hp. simpl in Hp.
  change (placeMines_loop fuel (fun _ => 0) 2 2 2 2 1 [[-1; 0]; [0; 0]] = Ok g)
    in Hp.
  by rewrite placeMines_loop_stuck in Hp.
Qed.

(** C1 (amended): for every configuration with 0 < mineCount < rows * cols
    and every stream of non-negative draws, whenever the placement loop
    returns, exactly mineCount cells are mines; and it does return, within
    [n] iterations, as soon as the first [n] draws hit mineCount distinct
    cells, in which case the constructed board has exactly mineCount mines
    as well. *)
Theorem placeMines_exact_count r c mines rnd :
  0 < r → 0 < c → 0 < mines < r * c → (forall k, 0 <= rnd k) →
  (forall fuel g,
     placeMines fuel rnd r c mines (fill2 r c 0) = Ok g →
     Z.of_nat (mineCount r c g) = mines) ∧
  (forall n (D : list cell),
     NoDup D → Z.of_nat (length D) = mines →
     (forall p, p ∈ D → p ∈ draws rnd r c n) →
     exists g b,
       placeMines n rnd r c mines (fill2 r c 0) = Ok g ∧
       Z.of_nat (mineCount r c g) = mines ∧
       Minesweeper_new n rnd r c mines = Ok b ∧
       Z.of_nat (mineCount (rows b) (cols b) (grid b)) = totalMines b).
Proof.
  intros Hr Hc Hm Hrnd.
  assert (forall fuel g,
     placeMines fuel rnd r c mines (fill2 r c 0) = Ok g →
     dims r c g ∧ Z.of_nat (mineCount r c g) = mines) as Hcount.
  { intros fuel g Hp. unfold placeMines in Hp.
    eapply placeMines_loop_count in Hp; eauto using dims_fill2; [|lia].
    rewrite mineCount_fill2. done. }
  split; [intros fuel g Hp; by apply Hcount in Hp as [_ ?]|].
  intros n D Hnd Hlen HD.
  destruct (placeMines_loop_terminates r c mines n Hr Hc rnd 0
              (fill2 r c 0) D Hrnd (dims_fill2 r c 0) Hnd) as [g Hg].
  { intros p Hp. split; [by apply HD|]. destruct p as [x y]. simpl.
    destruct (isValid r c x y) eqn:Ev.
    - apply isValid_bounds in Ev as [Hx Hy]. unfold isMine.
      by rewrite at2_fill2.
    - apply HD in Hp. unfold draws in Hp.
      apply list_elem_of_fmap in Hp as (i & Heq & _). inversion Heq; subst.
      assert (isValid r c (Z.rem (rnd (2 * i)%nat) r)
                (Z.rem (rnd (S (2 * i))) c) = true) as Hv.
      { apply isValid_bounds. split; apply Z.rem_bound_pos; auto with lia. }
      congruence. }
  { lia. }
  destruct (Hcount n g Hg) as [Hd Hcnt].
  exists g. eexists. split_and!; try done.
  - unfold Minesweeper_new.
    replace ((r <? 0) || (c <? 0)) with false
      by (symmetry; apply orb_false_intro; apply Z.ltb_ge; lia).
    unfold placeMines in *. by rewrite Hg.
  - simpl. destruct (calculateNumbers_spec r c g Hd) as (_ & Hs & _).
    by rewrite (mineCount_same r c g).
Qed.

Lemma placeMines_exact_count_witness :
  exists g b,
    placeMines 2 (fun k => nth k [0; 1; 1; 0] 0) 2 2 2 (fill2 2 2 0) = Ok g ∧
    Z.of_nat (mineCount 2 2 g) = 2 ∧
    Minesweeper_new 2 (fun k => nth k [0; 1; 1; 0] 0) 2 2 2 = Ok b ∧
    Z.of_nat (mineCount (rows b) (cols b) (grid b)) = totalMines b.
Proof.
  refine (proj2 (placeMines_exact_count 2 2 2 (fun k => nth k [0; 1; 1; 0] 0)
                   _ _ _ _) 2%nat [(0, 1); (1, 0)] _ _ _).
  - lia.
  - lia.
  - lia.
  - intros k. do 4 (destruct k as [|k]; [simpl; lia|]). simpl. destruct k; lia.
  - repeat constructor; rewrite ?elem_of_cons, ?elem_of_nil;
      intuition congruence.
  - reflexivity.
  - intros p Hp.
    change (draws (fun k => nth k [0; 1; 1; 0] 0) 2 2 2)
      with [(0, 1); (1, 0)]. exact Hp.
Defined.

(** C2: after construction, the number stored at every cell that is not a
    mine is the number of mines among those of its 8 neighbours that lie on
    the board (so it is between 0 and 8); neighbours outside the board are
    filtered out by [isValid] and contribute nothing. *)
Theorem constructed_numbers fuel rnd r c mines b x y :
  Minesweeper_new fuel rnd r c mines = Ok b →
  isValid (rows b) (cols b) x y = true →
  isMine (grid b) x y = false →
  at2 0 (grid b) x y
  = Z.of_nat (count (fun n => isValid (rows b) (cols b) n.1 n.2
                              && isMine (grid b) n.1 n.2)
                    (neighbours x y)) ∧
  0 <= at2 0 (grid b) x y <= 8.
Proof.
  intros Hnew Hv Hm.
  assert (constructed b) as Hb by (by exists fuel, rnd, r, c, mines).
  assert (at2 0 (grid b) x y
          = Z.of_nat (adjacentMines (rows b) (cols b) (grid b) x y)) as Hnum
    by exact (constructed_numbered b Hb (x, y) Hv Hm).
  pose proof (adjacentMines_le_8 (rows b) (cols b) (grid b) x y) as H8.
  split; [exact Hnum|lia].
Qed.

Lemma constructed_numbers_witness :
  at2 0 (grid corner_board) 1 1
  = Z.of_nat (count (fun n => isValid (rows corner_board) (cols corner_board)
                                      n.1 n.2
                              && isMine (grid corner_board) n.1 n.2)
                    (neighbours 1 1)) ∧
  0 <= at2 0 (grid corner_board) 1 1 <= 8.
Proof.
  apply (constructed_numbers 1 (fun _ => 0) 2 2 1 corner_board 1 1);
    reflexivity.
Defined.

(** C6 (as stated, refuted): the constructor checks nothing.  With
    mineCount = 0 it returns a board without mines; and the custom settings
    (2, 2, 0) do not make [getDifficultySettings] fail either. *)
Lemma constructor_accepts_zero_mines :
  Minesweeper_new 0 (fun _ => 0) 2 2 0
  = Ok (mkMinesweeper 2 2 0 [[0; 0]; [0; 0]]
                      [[false; false]; [false; false]]
                      [[false; false]; [false; false]] false false) ∧
  getDifficultySettings 4 2 2 0 = (9, 9, 10).
Proof. split; reflexivity. Qed.

(** C6 (amended): custom settings with rows <= 0, cols <= 0, mineCount <= 0
    or mineCount >= rows * cols are not reported as an error: the menu
    replaces them by the beginner preset (9, 9, 10) and [main] constructs
    that board.  Whatever is chosen, the settings handed to the constructor
    satisfy 0 < rows, 0 < cols and 0 < mineCount < rows * cols. *)
Theorem getDifficultySettings_replaces_invalid r c m :
  Int.in_range m →
  (r <= 0 ∨ c <= 0 ∨ m <= 0 ∨ m >= r * c →
   getDifficultySettings 4 r c m = (9, 9, 10) ∧
   forall fuel rnd,
     main_construct fuel rnd 4 r c m = Minesweeper_new fuel rnd 9 9 10) ∧
  (forall choice,
     let '(r', c', m') := getDifficultySettings choice r c m in
     0 < r' ∧ 0 < c' ∧ 0 < m' < r' * c').
Proof.
  intros Hm.
  assert (r <= 0 ∨ c <= 0 ∨ m <= 0 ∨ m >= r * c →
          (r <=? 0) || (c <=? 0) || (m <=? 0) || (Int.mul r c <=? m) = true)
    as Hbad.
  { intros Hbad. rewrite !orb_true_iff, !Z.leb_le.
    destruct (Z_le_gt_dec r 0), (Z_le_gt_dec c 0), (Z_le_gt_dec m 0);
      try tauto.
    right. unfold Int.mul. rewrite wrap_in_range; [lia|].
    int_bounds. nia. }
  assert ((r <=? 0) || (c <=? 0) || (m <=? 0) || (Int.mul r c <=? m) = false →
          0 < r ∧ 0 < c ∧ 0 < m < r * c) as Hgood.
  { intros Hg. repeat (apply orb_false_elim in Hg as [Hg ?]).
    repeat match goal with H : (_ <=? _) = false |- _ =>
      apply Z.leb_gt in H end.
    unfold Int.in_range, Int.min_int, Int.max_int, Int.mul, Int.wrap in *.
    split_and!; lia. }
  split.
  - intros Hinv. apply Hbad in Hinv.
    assert (getDifficultySettings 4 r c m = (9, 9, 10)) as Hset.
    { unfold getDifficultySettings. simpl. by rewrite Hinv. }
    split; [done|]. intros fuel rnd. unfold main_construct. by rewrite Hset.
  - intros choice. unfold getDifficultySettings.
    destruct (choice =? 1); [lia|]. destruct (choice =? 2); [lia|].
    destruct (choice =? 3); [lia|]. destruct (choice =? 4); [|lia].
    destruct ((r <=? 0) || (c <=? 0) || (m <=? 0) || (Int.mul r c <=? m))
      eqn:Eg; [lia|].
    by apply Hgood.
Qed.

Lemma getDifficultySettings_replaces_invalid_witness :
  (getDifficultySettings 4 0 5 3 = (9, 9, 10) ∧
   forall fuel rnd,
     main_construct fuel rnd 4 0 5 3 = Minesweeper_new fuel rnd 9 9 10).
Proof.
  refine (proj1 (getDifficultySettings_replaces_invalid 0 5 3 _) _).
  - unfold Int.in_range, Int.min_int, Int.max_int. lia.
  - left. lia.
Defined.

(** ** Flood-fill reveal *)

Lemma hidden_true b p :
  hidden b p = true ↔
  cellValid b p = true ∧ cellRevealed b p = false ∧ cellFlagged b p = false.
Proof.
  unfold hidden. rewrite !andb_true_iff, !negb_true_iff. tauto.
Qed.

Lemma revealCell_S fuel b x y :
  revealCell (S fuel) b x y =
  if negb (hidden b (x, y)) then Some b
  else
    let b1 := set_revealed b (put2 (revealed b) x y true) in
    if cellNumber b (x, y) =? -1 then Some (set_gameOver b1 true)
    else if cellNumber b (x, y) =? 0
         then revealAll (revealCell fuel) (neighbours x y) b1
         else Some b1.
Proof.
  simpl. unfold hidden, cellValid, cellRevealed, cellFlagged, cellNumber. simpl.
  destruct (isValid (rows b) (cols b) x y), (at2 false (revealed b) x y),
    (at2 false (flagged b) x y); reflexivity.
Qed.

(** Marking one hidden cell. *)
Lemma mark_spec b x y :
  wf b → hidden b (x, y) = true →
  let b1 := set_revealed b (put2 (revealed b) x y true) in
  wf b1 ∧ unchangedBut b b1 ∧ gameOver b1 = gameOver b ∧
  cellRevealed b1 (x, y) = true ∧
  (forall q, q ≠ (x, y) → cellRevealed b1 q = cellRevealed b q).
Proof.
  intros (Hr & Hc & Hg & Hrev & Hfl) Hh.
  apply hidden_true in Hh as (Hv & _ & _).
  apply isValid_bounds in Hv as [Hx Hy]. simpl in Hx, Hy.
  split_and!.
  - unfold wf. simpl. split_and!; try done. by apply dims_put2.
  - by unfold unchangedBut.
  - done.
  - unfold cellRevealed. simpl. by eapply at2_put2_eq.
  - intros [x' y'] Hne. unfold cellRevealed. simpl.
    apply at2_put2_ne. congruence.
Qed.

Lemma reveals_refl b (P : cell → Prop) : wf b → reveals b P b.
Proof.
  intros Hwf. unfold reveals, unchangedBut, newlyRevealed.
  split_and!; try done.
  - intros p [H1 H2]. congruence.
  - split; [by left|]. intros [?|(p & [H1 H2] & _)]; [done|congruence].
Qed.

Lemma reveals_weaken b (P Q : cell → Prop) b' :
  (forall p, P p → Q p) → reveals b P b' → reveals b Q b'.
Proof.
  intros HPQ (Hsame & Hwf & Hmono & Hnew & Hover).
  unfold reveals. split_and!; try done. intros p Hp. by apply HPQ, Hnew.
Qed.

Lemma reveals_trans b b1 b2 (P : cell → Prop) :
  reveals b P b1 → reveals b1 P b2 → reveals b P b2.
Proof.
  intros ((Hr1 & Hc1 & Ht1 & Hg1 & Hf1 & Hw1) & Hwf1 & Hmono1 & Hnew1 & Hover1)
         ((Hr2 & Hc2 & Ht2 & Hg2 & Hf2 & Hw2) & Hwf2 & Hmono2 & Hnew2 & Hover2).
  assert (forall p, cellMine b1 p = cellMine b p) as Hmine
    by (intros p; unfold cellMine; by rewrite Hg1).
  unfold reveals, unchangedBut. split_and!; try congruence; auto.
  - intros p [Hp2 Hp]. destruct (cellRevealed b1 p) eqn:Ep1.
    + by apply Hnew1.
    + by apply Hnew2.
  - rewrite Hover2, Hover1. split.
    + intros [[Ho|(p & [Hp1 Hp] & Hm)]|(p & [Hp2 Hp1] & Hm)].
      * by left.
      * right. exists p. split; [split|]; auto.
      * right. exists p. rewrite Hmine in Hm. split; [split|]; auto.
        destruct (cellRevealed b p) eqn:Ep; [|done].
        apply Hmono1 in Ep. congruence.
    + intros [Ho|(p & [Hp2 Hp] & Hm)]; [by left; left|].
      destruct (cellRevealed b1 p) eqn:Ep1.
      * left. right. by exists p.
      * right. exists p. by rewrite Hmine.
Qed.

Lemma closed_trans b b1 b2 (P Q : cell → Prop) :
  reveals b P b1 → reveals b1 Q b2 → closed b b1 → closed b1 b2 →
  closed b b2.
Proof.
  intros ((Hr1 & Hc1 & Ht1 & Hg1 & Hf1 & Hw1) & Hwf1 & Hmono1 & _)
         (_ & _ & Hmono2 & _) Hcl1 Hcl2 p q [Hp2 Hp] Hzero Hq Hv Hfl.
  destruct (cellRevealed b1 p) eqn:Ep1.
  - apply Hmono2. by apply (Hcl1 p q).
  - apply (Hcl2 p q); try done.
    + unfold cellNumber. by rewrite Hg1.
    + unfold cellValid. by rewrite Hr1, Hc1.
    + unfold cellFlagged. by rewrite Hf1.
Qed.

(** *** Cascades *)

Lemma cascade_start_hidden b p q : cascade b p q → hidden b p = true.
Proof. induction 1; done. Qed.

Lemma cascade_end_hidden b p q : cascade b p q → hidden b q = true.
Proof. induction 1; done. Qed.

Lemma cascade_trans b p q q' : cascade b p q → cascade b q q' → cascade b p q'.
Proof.
  intros Hpq Hqq'. induction Hqq' as [|q1 q2 _ IH Hz Hn Hh]; [done|].
  eapply cascade_step; eauto.
Qed.

(** Revealing more cells can only shrink the cascades. *)
Lemma cascade_anti b b1 p q (P : cell → Prop) :
  reveals b P b1 → cascade b1 p q → cascade b p q.
Proof.
  intros ((Hr1 & Hc1 & Ht1 & Hg1 & Hf1 & Hw1) & Hwf1 & Hmono1 & _).
  assert (forall p, hidden b1 p = true → hidden b p = true) as Hhid.
  { intros p'. rewrite !hidden_true. unfold cellValid, cellFlagged.
    rewrite Hr1, Hc1, Hf1. intros (? & Hrev & ?). split_and!; try done.
    destruct (cellRevealed b p') eqn:E; [|done]. apply Hmono1 in E. congruence. }
  induction 1 as [Hh|q q' _ IH Hz Hn Hh].
  - apply cascade_refl. by apply Hhid.
  - eapply cascade_step; eauto. unfold cellNumber in *. by rewrite <- Hg1.
Qed.

(** The loop over the neighbours, for any operation that meets [revealSpec]. *)
Lemma revealAll_spec rec (l : list cell) :
  (forall b x y b', wf b → rec b x y = Some b' → revealSpec b x y b') →
  forall b b', wf b → revealAll rec l b = Some b' →
  reveals b (fun q => exists n, n ∈ l ∧ cascade b n q) b' ∧ closed b b' ∧
  (forall n, n ∈ l → cellValid b n = true → cellFlagged b n = false →
     cellRevealed b' n = true).
Proof.
  intros Hrec. induction l as [|[x y] l IH]; intros b b' Hwf; simpl.
  - intros [= <-]. split_and!.
    + by apply reveals_refl.
    + intros p q [H1 H2]. congruence.
    + intros n Hn. by apply elem_of_nil in Hn.
  - destruct (rec b x y) as [b1|] eqn:Erec; [|discriminate]. intros Hall.
    destruct (Hrec b x y b1 Hwf Erec) as (Hrev1 & Hcl1 & Hself).
    assert (wf b1) as Hwf1 by apply Hrev1.
    destruct (IH b1 b' Hwf1 Hall) as (Hrev2 & Hcl2 & Hrest).
    set (P := fun q => exists n, n ∈ (x, y) :: l ∧ cascade b n q).
    assert (reveals b P b1) as Hrev1'.
    { eapply reveals_weaken; [|exact Hrev1]. intros q Hq. exists (x, y).
      split; [left|done]. }
    assert (reveals b1 P b') as Hrev2'.
    { eapply reveals_weaken; [|exact Hrev2]. intros q (n & Hn & Hq).
      exists n. split; [by right|]. by eapply cascade_anti. }
    destruct Hrev1 as ((Hr1 & Hc1 & Ht1 & Hg1 & Hf1 & Hw1) & _ & Hmono1 & _).
    split_and!.
    + by eapply reveals_trans.
    + by eapply closed_trans.
    + intros n Hn Hv Hfl. apply elem_of_cons in Hn as [->|Hn].
      * apply Hrev2. destruct (cellRevealed b (x, y)) eqn:Ep; [by apply Hmono1|].
        apply Hself. apply hidden_true. done.
      * apply Hrest; [done| |].
        -- unfold cellValid. by rewrite Hr1, Hc1.
        -- unfold cellFlagged. by rewrite Hf1.
Qed.

(** [revealCell] meets [revealSpec], whatever the fuel it returns with. *)
Lemma revealCell_spec fuel :
  forall b x y b', wf b → revealCell fuel b x y = Some b' → revealSpec b x y b'.
Proof.
  induction fuel as [|fuel IH]; intros b x y b' Hwf; [discriminate|].
  rewrite revealCell_S. unfold revealSpec.
  destruct (hidden b (x, y)) eqn:Eh; cbn [negb].
  2:{ intros [= <-]. split_and!; [by apply reveals_refl| |done].
      intros p q [H1 H2]. congruence. }
  destruct (mark_spec b x y Hwf Eh) as (Hwf1 & Hsame1 & Hover1 & Hset & Hoth).
  set (b1 := set_revealed b (put2 (revealed b) x y true)) in *.
  apply hidden_true in Eh as Hh. destruct Hh as (Hv & Hunrev & Hunfl).
  assert (forall p, newlyRevealed b b1 p → p = (x, y)) as Hnew1.
  { intros p [Hp1 Hp]. destruct (decide (p = (x, y))) as [|Hne]; [done|].
    rewrite Hoth in Hp1 by done. congruence. }
  assert (forall p, cellRevealed b p = true → cellRevealed b1 p = true)
    as Hmono1.
  { intros p Hp. destruct (decide (p = (x, y))) as [->|Hne]; [done|].
    by rewrite Hoth. }
  assert (cellNumber b (x, y) ≠ -1 → reveals b (cascade b (x, y)) b1) as Hrev1.
  { intros Hnum. unfold reveals. split_and!; try done.
    - intros p Hp. rewrite (Hnew1 p Hp). by apply cascade_refl.
    - rewrite Hover1. split; [by left|]. intros [?|(p & Hp & Hm)]; [done|].
      rewrite (Hnew1 p Hp) in Hm. unfold cellMine, isMine in Hm.
      apply Z.eqb_eq in Hm. done. }
  destruct (cellNumber b (x, y) =? -1) eqn:Emine;
    [|destruct (cellNumber b (x, y) =? 0) eqn:Ezero].
  - (* a mine *)
    intros [= <-]. apply Z.eqb_eq in Emine. split_and!; [|
      intros p q Hp Hz; rewrite (Hnew1 p Hp) in Hz; lia | done].
    unfold reveals. split_and!; try done.
    + intros p Hp. rewrite (Hnew1 p Hp). by apply cascade_refl.
    + split; [|done]. intros _. right. exists (x, y). split; [done|].
      unfold cellMine, isMine. by apply Z.eqb_eq.
  - (* a zero: cascade *)
    intros Hall. apply Z.eqb_neq in Emine. apply Z.eqb_eq in Ezero.
    specialize (Hrev1 Emine).
    destruct (revealAll_spec (revealCell fuel) (neighbours x y) IH b1 b'
                Hwf1 Hall) as (Hrev2 & Hcl2 & Hnbrs).
    destruct Hsame1 as (Hr1 & Hc1 & Ht1 & Hg1 & Hf1 & Hw1).
    assert (reveals b1 (cascade b (x, y)) b') as Hrev2'.
    { eapply reveals_weaken; [|exact Hrev2]. intros q (n & Hn & Hq).
      eapply cascade_anti in Hq; [|exact Hrev1].
      eapply cascade_trans; [|exact Hq].
      eapply cascade_step; [by apply cascade_refl|done|done|].
      by eapply cascade_start_hidden. }
    split_and!.
    + by eapply reveals_trans.
    + intros p q [Hp' Hp] Hz Hq Hvq Hfq.
      destruct (decide (p = (x, y))) as [->|Hne].
      * by apply Hnbrs.
      * apply (Hcl2 p q); try done. split; [done|]. by rewrite Hoth.
    + intros _. by apply Hrev2.
  - (* a number: no cascade *)
    intros [= <-]. apply Z.eqb_neq in Emine, Ezero. split_and!; [auto| |done].
    intros p q Hp Hz. by rewrite (Hnew1 p Hp) in Hz.
Qed.

(** The cells revealed after a call are those revealed before and those the
    cascade reaches. *)
Lemma revealCell_revealed fuel b x y b' :
  wf b → revealCell fuel b x y = Some b' →
  forall q, cellRevealed b' q = true ↔
            cellRevealed b q = true ∨ cascade b (x, y) q.
Proof.
  intros Hwf Hcall.
  destruct (revealCell_spec fuel b x y b' Hwf Hcall)
    as ((Hsame & _ & Hmono & Hnew & _) & Hcl & Hself).
  intros q. split.
  - intros Hq. destruct (cellRevealed b q) eqn:Eq; [by left|right].
    by apply Hnew.
  - intros [Hq|Hq]; [by apply Hmono|].
    induction Hq as [Hh|q q' Hq IH Hz Hn Hh]; [by apply Hself|].
    apply cascade_end_hidden, hidden_true in Hq as (_ & Hunrev & _).
    apply hidden_true in Hh as (Hv' & _ & Hfl').
    by apply (Hcl q q').
Qed.

(** *** Termination *)

Lemma unrevealedCount_mark b x y :
  wf b → hidden b (x, y) = true →
  unrevealedCount b
  = S (unrevealedCount (set_revealed b (put2 (revealed b) x y true))).
Proof.
  intros Hwf Hh.
  destruct (mark_spec b x y Hwf Hh) as (_ & _ & _ & Hset & Hoth).
  apply hidden_true in Hh as (Hv & Hunrev & _).
  unfold unrevealedCount. simpl rows. simpl cols.
  apply (count_switch_on _ _ _ (x, y)).
  - apply NoDup_allCells.
  - by apply elem_of_allCells.
  - simpl. by rewrite Hset.
  - simpl. by rewrite Hunrev.
  - intros q Hne. simpl. by rewrite Hoth.
Qed.

Lemma unrevealedCount_reveals b (P : cell → Prop) b' :
  reveals b P b' → (unrevealedCount b' <= unrevealedCount b)%nat.
Proof.
  intros ((Hr & Hc & _) & _ & Hmono & _). unfold unrevealedCount.
  rewrite Hr, Hc. apply count_mono. intros p _.
  rewrite !negb_true_iff. intros Hp.
  destruct (cellRevealed b p) eqn:E; [|done]. apply Hmono in E. congruence.
Qed.

Lemma revealAll_total rec (l : list cell) (m : nat) :
  (forall b x y b', wf b → rec b x y = Some b' → revealSpec b x y b') →
  (forall b x y, wf b → (unrevealedCount b < m)%nat →
     exists b', rec b x y = Some b') →
  forall b, wf b → (unrevealedCount b < m)%nat →
  exists b', revealAll rec l b = Some b'.
Proof.
  intros Hspec Htotal. induction l as [|[x y] l IH]; intros b Hwf Hlt; simpl;
    [eauto|].
  destruct (Htotal b x y Hwf Hlt) as [b1 Hb1]. rewrite Hb1.
  destruct (Hspec b x y b1 Hwf Hb1) as (Hrev & _).
  apply IH; [apply Hrev|].
  apply unrevealedCount_reveals in Hrev. lia.
Qed.

(** With more fuel than unrevealed cells, [revealCell] returns. *)
Lemma revealCell_total fuel :
  forall b x y, wf b → (unrevealedCount b < fuel)%nat →
  exists b', revealCell fuel b x y = Some b'.
Proof.
  induction fuel as [|fuel IH]; intros b x y Hwf Hlt; [lia|].
  rewrite revealCell_S. destruct (hidden b (x, y)) eqn:Eh; cbn [negb];
    [|eauto]. cbv zeta.
  destruct (cellNumber b (x, y) =? -1); [eauto|].
  destruct (cellNumber b (x, y) =? 0); [|eauto].
  pose proof (unrevealedCount_mark b x y Hwf Eh) as Hcount.
  apply (revealAll_total _ _ fuel).
  - apply revealCell_spec.
  - apply IH.
  - by apply mark_spec.
  - lia.
Qed.

Lemma reveal_total b x y : wf b → exists b', reveal b x y = Some b'.
Proof. intros Hwf. apply revealCell_total; [done|]. unfold revealFuel. lia. Qed.

(** More fuel does not change the result. *)
Lemma revealAll_mono (rec rec' : Minesweeper → Z → Z → option Minesweeper)
    (l : list cell) :
  (forall b x y b', rec b x y = Some b' → rec' b x y = Some b') →
  forall b b', revealAll rec l b = Some b' → revealAll rec' l b = Some b'.
Proof.
  intros Hrec. induction l as [|[x y] l IH]; intros b b'; simpl; [done|].
  destruct (rec b x y) as [b1|] eqn:E; [|discriminate].
  rewrite (Hrec _ _ _ _ E). apply IH.
Qed.

Lemma revealCell_fuel_mono fuel :
  forall fuel' b x y b', (fuel <= fuel')%nat →
  revealCell fuel b x y = Some b' → revealCell fuel' b x y = Some b'.
Proof.
  induction fuel as [|fuel IH]; intros fuel' b x y b' Hle; [discriminate|].
  destruct fuel' as [|fuel']; [lia|]. rewrite !revealCell_S.
  destruct (negb (hidden b (x, y))); [done|]. cbv zeta.
  destruct (cellNumber b (x, y) =? -1); [done|].
  destruct (cellNumber b (x, y) =? 0); [|done].
  apply revealAll_mono. intros b0 x0 y0 b0'. apply IH. lia.
Qed.

(** Any successful run of [revealCell] returns what [reveal] returns. *)
Lemma revealCell_reveal fuel b x y b' :
  wf b → revealCell fuel b x y = Some b' → reveal b x y = Some b'.
Proof.
  intros Hwf Hrun. destruct (reveal_total b x y Hwf) as [b'' Hrev].
  unfold reveal in *.
  apply (revealCell_fuel_mono _ (fuel + revealFuel b)%nat) in Hrun; [|lia].
  apply (revealCell_fuel_mono _ (fuel + revealFuel b)%nat) in Hrev as Hrev';
    [|lia].
  congruence.
Qed.

(** ** Flags, win check and sequences of calls *)

Lemma toggleFlag_spec b x y :
  wf b →
  wf (toggleFlag b x y) ∧
  rows (toggleFlag b x y) = rows b ∧ cols (toggleFlag b x y) = cols b ∧
  totalMines (toggleFlag b x y) = totalMines b ∧
  grid (toggleFlag b x y) = grid b ∧
  revealed (toggleFlag b x y) = revealed b ∧
  gameOver (toggleFlag b x y) = gameOver b ∧
  gameWon (toggleFlag b x y) = gameWon b ∧
  (forall q, q ≠ (x, y) →
     cellFlagged (toggleFlag b x y) q = cellFlagged b q) ∧
  (cellValid b (x, y) = false ∨ cellRevealed b (x, y) = true →
     toggleFlag b x y = b) ∧
  (cellValid b (x, y) = true → cellRevealed b (x, y) = false →
     cellFlagged (toggleFlag b x y) (x, y) = negb (cellFlagged b (x, y))).
Proof.
  intros (Hr & Hc & Hg & Hrev & Hfl). unfold toggleFlag.
  change (isValid (rows b) (cols b) x y) with (cellValid b (x, y)).
  change (at2 false (revealed b) x y) with (cellRevealed b (x, y)).
  destruct (cellValid b (x, y)) eqn:Ev, (cellRevealed b (x, y)) eqn:Er;
    cbn [negb orb]; split_and!; try done; try (intros [?|?]; done).
  - unfold wf. simpl. split_and!; try done. by apply dims_put2.
  - intros [x' y'] Hne. unfold cellFlagged. simpl. apply at2_put2_ne.
    congruence.
  - intros _ _. apply isValid_bounds in Ev as [Hx Hy].
    unfold cellFlagged. simpl. by eapply at2_put2_eq.
Qed.

Lemma checkWin_board b :
  (checkWin b).2 = b ∨
  ((checkWin b).1 = true ∧ (checkWin b).2 = set_gameWon b true).
Proof.
  unfold checkWin. destruct (_ =? _); [right|left]; done.
Qed.

Lemma exec_total b cmd : wf b → exists b', exec b cmd = Some b'.
Proof.
  intros Hwf. destruct cmd as [x y|x y|]; simpl; eauto using reveal_total.
Qed.

(** Both end-of-game flags are only ever set. *)
Lemma exec_flags b cmd b' :
  wf b → exec b cmd = Some b' →
  (gameOver b = true → gameOver b' = true) ∧
  (gameWon b = true → gameWon b' = true).
Proof.
  intros Hwf. destruct cmd as [x y|x y|]; simpl.
  - intros Hrev. apply revealCell_spec in Hrev as ((Hsame & _ & _ & _ & Ho) & _);
      [|done].
    destruct Hsame as (_ & _ & _ & _ & _ & Hw). split.
    + intros H. apply Ho. by left.
    + by rewrite Hw.
  - intros [= <-]. destruct (toggleFlag_spec b x y Hwf)
      as (_ & _ & _ & _ & _ & _ & Ho & Hw & _). by rewrite Ho, Hw.
  - intros [= <-]. destruct (checkWin_board b) as [->|[_ ->]]; [done|].
    simpl. done.
Qed.

Lemma numbered_same_grid b b' :
  rows b' = rows b → cols b' = cols b → grid b' = grid b →
  numbered b → numbered b'.
Proof.
  intros Hr Hc Hg Hnum p. unfold cellValid, cellMine, cellNumber.
  rewrite Hr, Hc, Hg. apply Hnum.
Qed.

Lemma exec_consistent b cmd b' :
  consistent b → exec b cmd = Some b' → consistent b'.
Proof.
  intros (Hwf & Hnum & Hexcl & Hover). destruct cmd as [x y|x y|]; simpl.
  - intros Hcall.
    destruct (revealCell_spec _ b x y b' Hwf Hcall)
      as (((Hr & Hc & Ht & Hg & Hf & Hw) & Hwf' & Hmono & Hnew & Ho) & _ & _).
    unfold consistent. split_and!; try done.
    + by apply (numbered_same_grid b).
    + intros p Hp. unfold cellFlagged. rewrite Hf.
      destruct (cellRevealed b p) eqn:Ep; [by apply Hexcl|].
      assert (cascade b (x, y) p) as Hcas by by apply Hnew.
      by apply cascade_end_hidden, hidden_true in Hcas as (_ & _ & ?).
    + rewrite Ho, Hover. unfold cellMine. rewrite Hg. split.
      * intros [(p & Hp & Hm)|(p & [Hp' Hp] & Hm)]; exists p; auto.
      * intros (p & Hp' & Hm). destruct (cellRevealed b p) eqn:Ep.
        -- left. by exists p.
        -- right. by exists p.
  - intros [= <-].
    destruct (toggleFlag_spec b x y Hwf)
      as (Hwf' & Hr & Hc & Ht & Hg & Hrev & Ho & Hw & Hoth & Hnoop & Hflip).
    unfold consistent. split_and!; try done.
    + by apply (numbered_same_grid b).
    + intros p. unfold cellRevealed at 1. rewrite Hrev. intros Hp.
      destruct (decide (p = (x, y))) as [->|Hne].
      * rewrite Hnoop by by right. by apply Hexcl.
      * rewrite Hoth by done. by apply Hexcl.
    + unfold cellRevealed, cellMine. by rewrite Ho, Hrev, Hg.
  - intros [= <-]. destruct (checkWin_board b) as [->|[_ ->]]; done.
Qed.

Lemma constructed_consistent b : constructed b → consistent b.
Proof.
  intros Hb. unfold consistent. split_and!.
  - by apply constructed_wf.
  - by apply constructed_numbered.
  - intros p Hp. by apply (constructed_fresh b p).
  - destruct (constructed_fresh b (0, 0) Hb) as (_ & _ & Ho & _).
    rewrite Ho. split; [done|]. intros (p & Hp & _).
    destruct (constructed_fresh b p Hb) as (Hp' & _). congruence.
Qed.

Lemma play_consistent cmds :
  forall b b', consistent b → play b cmds = Some b' → consistent b'.
Proof.
  induction cmds as [|cmd cmds IH]; intros b b' Hb; simpl.
  - by intros [= <-].
  - destruct (exec b cmd) as [b1|] eqn:E; [|discriminate].
    apply IH. by eapply exec_consistent.
Qed.

Lemma play_total cmds :
  forall b, consistent b → exists b', play b cmds = Some b'.
Proof.
  induction cmds as [|cmd cmds IH]; intros b Hb; simpl; [eauto|].
  destruct (exec_total b cmd) as [b1 E]; [apply Hb|]. rewrite E.
  apply IH. by eapply exec_consistent.
Qed.

Lemma play_flags cmds :
  forall b b', consistent b → play b cmds = Some b' →
  (gameOver b = true → gameOver b' = true) ∧
  (gameWon b = true → gameWon b' = true).
Proof.
  induction cmds as [|cmd cmds IH]; intros b b' Hb; simpl.
  - by intros [= <-].
  - destruct (exec b cmd) as [b1|] eqn:E; [|discriminate]. intros Hplay.
    destruct (exec_flags b cmd b1 (proj1 Hb) E) as [Ho Hw].
    destruct (IH b1 b' (exec_consistent _ _ _ Hb E) Hplay) as [Ho' Hw'].
    auto.
Qed.


(** ** The win check *)

(** The cells that count towards a win. *)
Lemma checkWin_counts_flat b :
  checkWin_counts b
  = foldl (fun acc p =>
             (if cellRevealed b p && negb (cellMine b p)
              then Int.add acc.1 1 else acc.1,
              if cellFlagged b p && cellMine b p
              then Int.add acc.2 1 else acc.2))
          (0, 0) (allCells (rows b) (cols b)).
Proof.
  unfold checkWin_counts, allCells. rewrite foldl_bind.
  apply foldl_ext. intros acc i. by rewrite foldl_fmap.
Qed.

(** As long as the counter cannot overflow, [revealedCount] is the number
    of revealed cells that are not mines; the flags play no part in it. *)
Lemma revealedCount_fold b (l : list cell) :
  forall acc, 0 <= acc.1 → acc.1 + Z.of_nat (length l) <= Int.max_int →
  (foldl (fun acc p =>
            (if cellRevealed b p && negb (cellMine b p)
             then Int.add acc.1 1 else acc.1,
             if cellFlagged b p && cellMine b p
             then Int.add acc.2 1 else acc.2)) acc l).1
  = acc.1 + Z.of_nat (count (fun p => cellRevealed b p && negb (cellMine b p)) l).
Proof.
  induction l as [|p l IH]; intros [a c] Ha Hfit; simpl in *; [lia|].
  assert (Int.add a 1 = a + 1) as Hinc.
  { apply wrap_in_range. int_bounds.
    lia. }
  rewrite IH; simpl; destruct (cellRevealed b p && negb (cellMine b p));
    rewrite ?Hinc; lia.
Qed.

Lemma revealedCount_spec b :
  0 <= rows b → 0 <= cols b → rows b * cols b <= Int.max_int →
  (checkWin_counts b).1
  = Z.of_nat (count (fun p => cellRevealed b p && negb (cellMine b p))
                    (allCells (rows b) (cols b))).
Proof.
  intros Hr Hc Hfit. rewrite checkWin_counts_flat, revealedCount_fold; simpl.
  - lia.
  - lia.
  - by rewrite length_allCells.
Qed.

(** Comparing a cell count with [rows * cols - totalMines] in [int]
    arithmetic gives the mathematical answer on boards that fit in an
    [int]. *)
Lemma win_test_exact rc t n :
  0 <= rc <= Int.max_int → Int.in_range t → 0 <= n <= rc →
  n = Int.sub (Int.wrap rc) t ↔ n = rc - t.
Proof.
  unfold Int.sub, Int.wrap, Int.in_range, Int.min_int, Int.max_int.
  intros Hrc Ht Hn. rewrite (Z.mod_small (rc + 2 ^ 31)) by lia.
  destruct (Z_le_gt_dec (rc - t) (2 ^ 31 - 1)) as [Hfit|Hbig].
  - rewrite Z.mod_small by lia. lia.
  - replace (rc + 2 ^ 31 - 2 ^ 31 - t + 2 ^ 31)
      with ((rc - t - 2 ^ 31) + 1 * 2 ^ 32) by lia.
    rewrite Z.mod_add by lia. rewrite Z.mod_small by lia. lia.
Qed.

(** ** Reveal: the specified cases *)

Lemma zeroRegion_zero b p q :
  zeroRegion b p q → cellValid b q = true ∧ cellNumber b q = 0.
Proof. induction 1; done. Qed.

(** On a board with correct numbers a cascade stays within the zero region
    of its start and the numbered border of that region, and meets no mine. *)
Lemma cascade_in_region b p q :
  numbered b → cellNumber b p = 0 → cascade b p q →
  cellMine b q = false ∧ (zeroRegion b p q ∨ regionBorder b p q).
Proof.
  intros Hnum Hzero. induction 1 as [Hh|q q' Hq IH Hz Hn Hh].
  - apply hidden_true in Hh as (Hv & _). split.
    + unfold cellMine, isMine. unfold cellNumber in Hzero. by rewrite Hzero.
    + left. by apply zeroRegion_refl.
  - destruct IH as [Hmq Hreg].
    assert (zeroRegion b p q) as Hzq.
    { destruct Hreg as [?|(z & _ & _ & _ & Hne & _)]; done. }
    apply cascade_end_hidden, hidden_true in Hq as (Hvq & _).
    apply hidden_true in Hh as (Hv' & _).
    assert (cellMine b q' = false) as Hm'.
    { pose proof (Hnum q Hvq Hmq) as Hcount. rewrite Hz in Hcount.
      assert (adjacentMines (rows b) (cols b) (grid b) q.1 q.2 = 0%nat)
        as Hnone by lia.
      pose proof (count_zero_elem _ _ q' Hnone Hn) as Hq'. simpl in Hq'.
      unfold cellValid in Hv'. rewrite Hv' in Hq'. done. }
    split; [done|].
    destruct (decide (cellNumber b q' = 0)) as [Hz'|Hnz'].
    + left. by eapply zeroRegion_step.
    + right. by exists q.
Qed.

(** Where nothing of the region and its border is revealed or flagged, the
    cascade covers all of it. *)
Lemma region_in_cascade b p :
  (forall q, zeroRegion b p q ∨ regionBorder b p q →
     cellRevealed b q = false ∧ cellFlagged b q = false) →
  forall q, zeroRegion b p q ∨ regionBorder b p q → cascade b p q.
Proof.
  intros Hfree.
  assert (forall q, zeroRegion b p q → cascade b p q) as Hreg.
  { induction 1 as [Hv Hz|q q' Hq IH Hn Hv Hz].
    - apply cascade_refl, hidden_true.
      destruct (Hfree p) as [? ?]; [left; by apply zeroRegion_refl|]. done.
    - apply zeroRegion_zero in Hq as Hq0. destruct Hq0 as [_ Hzq].
      eapply cascade_step; eauto. apply hidden_true.
      destruct (Hfree q') as [? ?]; [left; by eapply zeroRegion_step|]. done. }
  intros q [Hq|Hq]; [by apply Hreg|].
  destruct (Hfree q (or_intror Hq)) as [? ?].
  destruct Hq as (z & Hz & Hn & Hv & _).
  apply zeroRegion_zero in Hz as Hz0. destruct Hz0 as [_ Hzz].
  eapply cascade_step; eauto. by apply hidden_true.
Qed.

Lemma strip_board_constructed :
  Minesweeper_new 1 (fun k => nth k [0; 3] 0) 1 4 1 = Ok strip_board.
Proof. reflexivity. Qed.

Lemma constructed_corner : constructed corner_board.
Proof. exists 1%nat, (fun _ => 0), 2, 2, 1. apply corner_board_constructed. Qed.

Lemma constructed_strip : constructed strip_board.
Proof.
  exists 1%nat, (fun k => nth k [0; 3] 0), 1, 4, 1.
  apply strip_board_constructed.
Qed.

(** C3 (as stated, refuted): on the 1 x 4 board with numbers 0 0 1 and a
    mine, flag (0, 1) and reveal (0, 0).  Cell (0, 1) belongs to the zero
    region of (0, 0) and (0, 2) is on its numbered border, yet the call
    reveals neither: the cascade stops at the flag. *)
Lemma flag_blocks_cascade :
  exists b b',
    play strip_board [ToggleFlag 0 1] = Some b ∧
    isValid (rows b) (cols b) 0 0 = true ∧
    cellRevealed b (0, 0) = false ∧ cellFlagged b (0, 0) = false ∧
    cellNumber b (0, 0) = 0 ∧
    reveal b 0 0 = Some b' ∧
    zeroRegion b (0, 0) (0, 1) ∧ cellRevealed b' (0, 1) = false ∧
    regionBorder b (0, 0) (0, 2) ∧ cellRevealed b' (0, 2) = false.
Proof.
  eexists. eexists. split; [reflexivity|].
  assert (0 + 1 = 1) as H1 by done.
  assert (forall x y : Z, (x, y + 1) ∈ neighbours x y) as Hright.
  { intros x y. rewrite neighbours_unfold. replace x with (x + 0) at 1 by lia.
    do 4 right. left. }
  split_and!; try reflexivity.
  - eapply (zeroRegion_step _ _ (0, 0)); [by apply zeroRegion_refl| |done|done].
    apply (Hright 0 0).
  - exists (0, 1). split_and!; try done.
    + eapply (zeroRegion_step _ _ (0, 0)); [by apply zeroRegion_refl| |done|done].
      apply (Hright 0 0).
    + apply (Hright 0 1).
Qed.

(** C3 (amended): for every board with correct numbers and every in-bounds,
    unrevealed, unflagged cell with count 0, reveal returns; afterwards the
    revealed cells are those revealed before together with the cells that
    can be reached from the start by steps between adjacent cells through
    unrevealed, unflagged zero-count cells (numbered cells are reached but
    not stepped from).  All of them lie in the connected zero region of the
    start or on its numbered border and none is a mine, so nothing outside
    that set changes and the game does not end; where no cell of the region
    and its border is flagged or already revealed, they are the whole
    region and border.  Nothing but [revealed] changes. *)
Theorem reveal_zero_cascade b x y :
  wf b → numbered b →
  isValid (rows b) (cols b) x y = true →
  cellRevealed b (x, y) = false → cellFlagged b (x, y) = false →
  cellNumber b (x, y) = 0 →
  exists b',
    reveal b x y = Some b' ∧
    unchangedBut b b' ∧ gameOver b' = gameOver b ∧
    (forall q, cellRevealed b' q = true ↔
               cellRevealed b q = true ∨ cascade b (x, y) q) ∧
    (forall q, cascade b (x, y) q →
               cellMine b q = false ∧
               (zeroRegion b (x, y) q ∨ regionBorder b (x, y) q)) ∧
    ((forall q, zeroRegion b (x, y) q ∨ regionBorder b (x, y) q →
                cellRevealed b q = false ∧ cellFlagged b q = false) →
     forall q, cellRevealed b' q = true ↔
               cellRevealed b q = true ∨
               zeroRegion b (x, y) q ∨ regionBorder b (x, y) q).
Proof.
  intros Hwf Hnum Hv Hunrev Hunfl Hzero.
  destruct (reveal_total b x y Hwf) as [b' Hcall]. exists b'.
  pose proof (revealCell_revealed _ b x y b' Hwf Hcall) as Hchar.
  destruct (revealCell_spec _ b x y b' Hwf Hcall)
    as ((Hsame & _ & _ & Hnew & Hover) & _ & _).
  pose proof (fun q => cascade_in_region b (x, y) q Hnum Hzero) as Hin.
  split_and!; try done.
  - destruct (gameOver b') eqn:Eo'.
    + destruct (proj1 Hover eq_refl) as [Ho|(p & Hp & Hm)]; [done|].
      apply Hnew, Hin in Hp as [Hsafe _]. congruence.
    + destruct (gameOver b) eqn:Eo; [|done].
      apply (proj2 Hover). by left.
  - intros Hfree q. rewrite Hchar. split.
    + intros [?|Hq]; [by left|right]. by apply Hin.
    + intros [?|Hq]; [by left|right]. by apply region_in_cascade.
Qed.

Lemma reveal_zero_cascade_witness :
  exists b',
    reveal strip_board 0 0 = Some b' ∧
    unchangedBut strip_board b' ∧ gameOver b' = gameOver strip_board ∧
    (forall q, cellRevealed b' q = true ↔
               cellRevealed strip_board q = true ∨
               cascade strip_board (0, 0) q) ∧
    (forall q, cascade strip_board (0, 0) q →
               cellMine strip_board q = false ∧
               (zeroRegion strip_board (0, 0) q ∨
                regionBorder strip_board (0, 0) q)) ∧
    ((forall q, zeroRegion strip_board (0, 0) q ∨
                regionBorder strip_board (0, 0) q →
                cellRevealed strip_board q = false ∧
                cellFlagged strip_board q = false) →
     forall q, cellRevealed b' q = true ↔
               cellRevealed strip_board q = true ∨
               zeroRegion strip_board (0, 0) q ∨
               regionBorder strip_board (0, 0) q).
Proof.
  apply (reveal_zero_cascade strip_board 0 0).
  - apply constructed_wf, constructed_strip.
  - apply constructed_numbered, constructed_strip.
  - reflexivity.
  - reflexivity.
  - reflexivity.
  - reflexivity.
Defined.

(** C4 (as stated, refuted): win the 2 x 2 game (reveal the three safe cells,
    evaluate the win), then reveal the mine at (0, 0), which is still in
    bounds, unrevealed and unflagged.  The call sets [gameOver], but the
    status of the game stays Won: it is not Lost. *)
Lemma reveal_mine_after_win :
  exists b b',
    play corner_board [Reveal 0 1; Reveal 1 0; Reveal 1 1; EvaluateWin]
      = Some b ∧
    isValid (rows b) (cols b) 0 0 = true ∧
    cellRevealed b (0, 0) = false ∧ cellFlagged b (0, 0) = false ∧
    cellMine b (0, 0) = true ∧
    reveal b 0 0 = Some b' ∧ status b' = Won ∧ status b' ≠ Lost.
Proof. do 2 eexists. split_and!; try reflexivity. done. Qed.

(** C4 (amended): for every board and every in-bounds, unrevealed, unflagged
    mine cell, reveal marks that cell revealed, sets [gameOver] and changes
    nothing else: no other cell is revealed.  The status becomes Lost if the
    game was not already won; on a board already won it stays Won. *)
Theorem reveal_mine_no_cascade b x y :
  wf b →
  isValid (rows b) (cols b) x y = true →
  cellRevealed b (x, y) = false → cellFlagged b (x, y) = false →
  cellMine b (x, y) = true →
  exists b',
    reveal b x y = Some b' ∧
    cellRevealed b' (x, y) = true ∧
    (forall q, q ≠ (x, y) → cellRevealed b' q = cellRevealed b q) ∧
    unchangedBut b b' ∧ gameOver b' = true ∧
    (gameWon b = false → status b' = Lost) ∧
    (gameWon b = true → status b' = Won).
Proof.
  intros Hwf Hv Hunrev Hunfl Hmine.
  assert (hidden b (x, y) = true) as Hh by by apply hidden_true.
  destruct (mark_spec b x y Hwf Hh) as (_ & Hsame & _ & Hset & Hoth).
  eexists. unfold reveal, revealFuel. rewrite revealCell_S, Hh. cbn [negb].
  assert ((cellNumber b (x, y) =? -1) = true) as -> by exact Hmine.
  split_and!; try done.
  - unfold status. simpl. by intros ->.
  - unfold status. simpl. by intros ->.
Qed.

Lemma reveal_mine_no_cascade_witness :
  exists b',
    reveal corner_board 0 0 = Some b' ∧
    cellRevealed b' (0, 0) = true ∧
    (forall q, q ≠ (0, 0) → cellRevealed b' q = cellRevealed corner_board q) ∧
    unchangedBut corner_board b' ∧ gameOver b' = true ∧
    (gameWon corner_board = false → status b' = Lost) ∧
    (gameWon corner_board = true → status b' = Won).
Proof.
  apply (reveal_mine_no_cascade corner_board 0 0).
  - apply constructed_wf, constructed_corner.
  - reflexivity.
  - reflexivity.
  - reflexivity.
  - reflexivity.
Defined.

(** C7: reveal with coordinates out of bounds, on a revealed cell or on a
    flagged cell, and toggleFlag with coordinates out of bounds or on a
    revealed cell, return normally and leave the whole board as it was. *)
Theorem illegal_calls_are_noops b x y :
  (isValid (rows b) (cols b) x y = false ∨ cellRevealed b (x, y) = true
   ∨ cellFlagged b (x, y) = true →
   reveal b x y = Some b ∧ forall fuel, revealCell (S fuel) b x y = Some b) ∧
  (isValid (rows b) (cols b) x y = false ∨ cellRevealed b (x, y) = true →
   toggleFlag b x y = b).
Proof.
  split.
  - intros Hcase.
    assert (hidden b (x, y) = false) as Hh.
    { unfold hidden, cellValid. simpl.
      destruct Hcase as [-> | [-> | ->]]; [done| |];
        by rewrite ?andb_false_r. }
    split; [unfold reveal, revealFuel|intros fuel];
      by rewrite revealCell_S, Hh.
  - intros Hcase. unfold toggleFlag.
    change (at2 false (revealed b) x y) with (cellRevealed b (x, y)).
    destruct Hcase as [-> | ->]; [done|]. by rewrite orb_true_r.
Qed.

Lemma illegal_calls_are_noops_witness :
  (reveal corner_board 2 0 = Some corner_board ∧
   forall fuel, revealCell (S fuel) corner_board 2 0 = Some corner_board) ∧
  toggleFlag corner_board 0 (-1) = corner_board.
Proof.
  pose proof (illegal_calls_are_noops corner_board 2 0) as [Hreveal _].
  pose proof (illegal_calls_are_noops corner_board 0 (-1)) as [_ Hflag].
  split; [apply Hreveal|apply Hflag]; left; reflexivity.
Defined.

(** C9: in every state reached from a freshly constructed board by any
    sequence of calls (and every such sequence runs to completion), no cell
    is both revealed and flagged; a reveal leaves the revealed state of
    every flagged cell as it is, and toggleFlag leaves the flag of every
    revealed cell as it is. *)
Theorem revealed_flagged_exclusive b0 cmds :
  constructed b0 →
  (exists b, play b0 cmds = Some b) ∧
  forall b, play b0 cmds = Some b →
    (forall p, ¬ (cellRevealed b p = true ∧ cellFlagged b p = true)) ∧
    (forall x y b' p, reveal b x y = Some b' → cellFlagged b p = true →
       cellRevealed b' p = cellRevealed b p) ∧
    (forall x y p, cellRevealed b p = true →
       cellFlagged (toggleFlag b x y) p = cellFlagged b p).
Proof.
  intros Hb0. apply constructed_consistent in Hb0.
  split; [by apply play_total|]. intros b Hplay.
  destruct (play_consistent cmds b0 b Hb0 Hplay) as (Hwf & _ & Hexcl & _).
  split_and!.
  - intros p [Hr Hf]. apply Hexcl in Hr. congruence.
  - intros x y b' p Hcall Hf.
    destruct (revealCell_spec _ b x y b' Hwf Hcall)
      as ((_ & _ & Hmono & Hnew & _) & _ & _).
    destruct (cellRevealed b p) eqn:Ep; [by apply Hmono|].
    destruct (cellRevealed b' p) eqn:Ep'; [|done].
    assert (cascade b (x, y) p) as Hcas by by apply Hnew.
    apply cascade_end_hidden, hidden_true in Hcas as (_ & _ & ?). congruence.
  - intros x y p Hp.
    destruct (toggleFlag_spec b x y Hwf)
      as (_ & _ & _ & _ & _ & _ & _ & _ & Hoth & Hnoop & _).
    destruct (decide (p = (x, y))) as [->|Hne]; [|by apply Hoth].
    rewrite Hnoop; [done|by right].
Qed.

Lemma revealed_flagged_exclusive_witness :
  constructed strip_board ∧
  (exists b, play strip_board [ToggleFlag 0 3; Reveal 0 3; Reveal 0 0]
             = Some b) ∧
  forall b, play strip_board [ToggleFlag 0 3; Reveal 0 3; Reveal 0 0]
            = Some b →
    (forall p, ¬ (cellRevealed b p = true ∧ cellFlagged b p = true)) ∧
    (forall x y b' p, reveal b x y = Some b' → cellFlagged b p = true →
       cellRevealed b' p = cellRevealed b p) ∧
    (forall x y p, cellRevealed b p = true →
       cellFlagged (toggleFlag b x y) p = cellFlagged b p).
Proof.
  split; [apply constructed_strip|].
  apply (revealed_flagged_exclusive strip_board). apply constructed_strip.
Defined.

(** C5: on every board (with fewer than 2^31 cells, so that the [int]
    arithmetic is exact) checkWin returns true if and only if the number of
    revealed cells that are not mines equals rows * cols - mineCount; it
    then sets the status to Won, and otherwise leaves the board alone.  The
    flags have no influence on the result; in particular, on a board with
    mineCount mines the result is false as long as some cell that is not a
    mine is hidden, however the flags are placed. *)
Theorem checkWin_spec b :
  wf b → rows b * cols b <= Int.max_int → Int.in_range (totalMines b) →
  ((checkWin b).1 = true ↔
   Z.of_nat (count (fun p => cellRevealed b p && negb (cellMine b p))
                   (allCells (rows b) (cols b)))
   = rows b * cols b - totalMines b) ∧
  ((checkWin b).1 = true →
   (checkWin b).2 = set_gameWon b true ∧ status (checkWin b).2 = Won) ∧
  ((checkWin b).1 = false → (checkWin b).2 = b) ∧
  (forall fl, (checkWin (set_flagged b fl)).1 = (checkWin b).1) ∧
  (Z.of_nat (mineCount (rows b) (cols b) (grid b)) = totalMines b →
   (exists p, cellValid b p = true ∧ cellMine b p = false
              ∧ cellRevealed b p = false) →
   (checkWin b).1 = false).
Proof.
  intros (Hr & Hc & _) Hfit Hmines.
  set (safe := fun p => cellRevealed b p && negb (cellMine b p)).
  set (n := count safe (allCells (rows b) (cols b))).
  assert ((checkWin_counts b).1 = Z.of_nat n) as Hcount
    by by apply revealedCount_spec.
  assert (Z.of_nat n <= rows b * cols b) as Hn.
  { rewrite <- length_allCells by done. apply inj_le, count_le_length. }
  assert (0 <= rows b * cols b) as Hcells by by apply Z.mul_nonneg_nonneg.
  assert ((checkWin b).1 = true ↔ Z.of_nat n = rows b * cols b - totalMines b)
    as Hiff.
  { unfold checkWin. rewrite Hcount. unfold Int.mul.
    rewrite <- (win_test_exact (rows b * cols b) (totalMines b) (Z.of_nat n))
      by (done || lia).
    destruct (Z.of_nat n =? _) eqn:E; simpl.
    - by apply Z.eqb_eq in E.
    - by apply Z.eqb_neq in E. }
  split_and!.
  - exact Hiff.
  - unfold checkWin. destruct (_ =? _); [done|discriminate].
  - unfold checkWin. destruct (_ =? _); [discriminate|done].
  - intros fl. unfold checkWin.
    assert ((checkWin_counts (set_flagged b fl)).1 = Z.of_nat n) as ->
      by by apply (revealedCount_spec (set_flagged b fl)).
    rewrite Hcount. simpl. by destruct (_ =? _).
  - intros Hcnt (p & Hv & Hm & Hunrev).
    apply not_true_is_false. intros E. apply Hiff in E.
    pose proof (count_negb (fun p => cellMine b p)
                  (allCells (rows b) (cols b))) as Hsplit.
    assert (n < count (fun p => negb (cellMine b p))
                      (allCells (rows b) (cols b)))%nat as Hlt.
    { apply (count_strict _ _ _ p).
      - intros q _. unfold safe. by intros [_ ?]%andb_prop.
      - destruct p. by apply elem_of_allCells.
      - unfold safe. by rewrite Hunrev.
      - by rewrite Hm. }
    pose proof (length_allCells (rows b) (cols b) Hr Hc) as Hlen.
    unfold mineCount, cellMine in *. lia.
Qed.

Lemma checkWin_spec_witness :
  ((checkWin corner_board).1 = true ↔
   Z.of_nat (count (fun p => cellRevealed corner_board p
                             && negb (cellMine corner_board p))
                   (allCells (rows corner_board) (cols corner_board)))
   = rows corner_board * cols corner_board - totalMines corner_board) ∧
  ((checkWin corner_board).1 = true →
   (checkWin corner_board).2 = set_gameWon corner_board true
   ∧ status (checkWin corner_board).2 = Won) ∧
  ((checkWin corner_board).1 = false →
   (checkWin corner_board).2 = corner_board) ∧
  (forall fl, (checkWin (set_flagged corner_board fl)).1
              = (checkWin corner_board).1) ∧
  (Z.of_nat (mineCount (rows corner_board) (cols corner_board)
                       (grid corner_board)) = totalMines corner_board →
   (exists p, cellValid corner_board p = true
              ∧ cellMine corner_board p = false
              ∧ cellRevealed corner_board p = false) →
   (checkWin corner_board).1 = false).
Proof.
  apply (checkWin_spec corner_board).
  - apply constructed_wf, constructed_corner.
  - unfold Int.max_int. simpl. lia.
  - unfold Int.in_range, Int.min_int, Int.max_int. simpl. lia.
Defined.

(** C8 (as stated, refuted): on the 2 x 2 board reveal the mine, so that the
    status is Lost; reveal the three other cells and evaluate the win: the
    status is now Won. *)
Lemma lost_game_can_be_won :
  exists b1 b2,
    play corner_board [Reveal 0 0] = Some b1 ∧ status b1 = Lost ∧
    play b1 [Reveal 0 1; Reveal 1 0; Reveal 1 1; EvaluateWin] = Some b2 ∧
    status b2 = Won ∧ status b2 ≠ Lost.
Proof. do 2 eexists. split_and!; try reflexivity. done. Qed.

(** C8 (amended): the status starts as InProgress and, over every sequence
    of reveal, toggleFlag and evaluateWin calls, never returns to
    InProgress once it has left it; once Won it stays Won; once Lost it is
    Lost or Won from then on (the calls are not gated, so a lost game whose
    remaining safe cells get revealed is reported as won).  Each of the two
    flags behind the status, once set, stays set. *)
Theorem status_transitions b0 cmds1 cmds2 :
  constructed b0 →
  status b0 = InProgress ∧
  exists b1 b2,
    play b0 cmds1 = Some b1 ∧ play b1 cmds2 = Some b2 ∧
    (status b1 ≠ InProgress → status b2 ≠ InProgress) ∧
    (status b1 = Won → status b2 = Won) ∧
    (status b1 = Lost → status b2 = Lost ∨ status b2 = Won) ∧
    (gameOver b1 = true → gameOver b2 = true) ∧
    (gameWon b1 = true → gameWon b2 = true).
Proof.
  intros Hb0.
  destruct (constructed_fresh b0 (0, 0) Hb0) as (_ & _ & Ho0 & Hw0).
  apply constructed_consistent in Hb0.
  destruct (play_total cmds1 b0 Hb0) as [b1 Hplay1].
  pose proof (play_consistent cmds1 b0 b1 Hb0 Hplay1) as Hb1.
  destruct (play_total cmds2 b1 Hb1) as [b2 Hplay2].
  destruct (play_flags cmds2 b1 b2 Hb1 Hplay2) as [Ho Hw].
  split; [unfold status; by rewrite Ho0, Hw0|].
  exists b1, b2. split; [done|]. split; [done|]. unfold status.
  destruct (gameWon b1), (gameOver b1), (gameWon b2) eqn:Ew2,
    (gameOver b2) eqn:Eo2; split_and!; try done; auto;
    try (intros _; exfalso; (by specialize (Ho eq_refl))
                            || (by specialize (Hw eq_refl))).
Qed.

Lemma status_transitions_witness :
  constructed corner_board ∧
  status corner_board = InProgress ∧
  exists b1 b2,
    play corner_board [Reveal 1 1; ToggleFlag 0 0] = Some b1 ∧
    play b1 [ToggleFlag 0 0; Reveal 0 0; EvaluateWin] = Some b2 ∧
    (status b1 ≠ InProgress → status b2 ≠ InProgress) ∧
    (status b1 = Won → status b2 = Won) ∧
    (status b1 = Lost → status b2 = Lost ∨ status b2 = Won) ∧
    (gameOver b1 = true → gameOver b2 = true) ∧
    (gameWon b1 = true → gameWon b2 = true).
Proof.
  split; [apply constructed_corner|].
  apply (status_transitions corner_board). apply constructed_corner.
Defined.

(** C10 (as stated, refuted): after winning the 2 x 2 game the status is
    Won, not InProgress, but isGameOver() returns false. *)
Lemma isGameOver_false_after_win :
  exists b,
    play corner_board [Reveal 0 1; Reveal 1 0; Reveal 1 1; EvaluateWin]
      = Some b ∧
    status b = Won ∧ status b ≠ InProgress ∧ isGameOver b = false.
Proof. eexists. split_and!; try reflexivity. done. Qed.

(** C10 (amended): in every state of a game isGameOver() returns true
    exactly when a mine has been revealed, that is after a loss; it then
    implies that the status is not InProgress, and it is true whenever the
    status is Lost, but after a win without a revealed mine it is false.
    The status differs from InProgress exactly when isGameOver() or
    isGameWon() returns true. *)
Theorem isGameOver_spec b0 cmds :
  constructed b0 →
  exists b,
    play b0 cmds = Some b ∧
    (isGameOver b = true ↔
     exists p, cellRevealed b p = true ∧ cellMine b p = true) ∧
    (isGameOver b = true → status b ≠ InProgress) ∧
    (status b = Lost → isGameOver b = true) ∧
    (isGameWon b = false → (isGameOver b = true ↔ status b ≠ InProgress)) ∧
    (status b ≠ InProgress ↔ isGameOver b = true ∨ isGameWon b = true).
Proof.
  intros Hb0. apply constructed_consistent in Hb0.
  destruct (play_total cmds b0 Hb0) as [b Hplay]. exists b.
  destruct (play_consistent cmds b0 b Hb0 Hplay) as (_ & _ & _ & Hover).
  split; [done|]. split; [exact Hover|].
  unfold isGameOver, isGameWon, status.
  destruct (gameWon b), (gameOver b); split_and!; try done;
    try (split; try done); auto; try (intros [?|?]; done).
Qed.

Lemma isGameOver_spec_witness :
  constructed corner_board ∧
  exists b,
    play corner_board [Reveal 0 1; ToggleFlag 1 0; Reveal 0 0] = Some b ∧
    (isGameOver b = true ↔
     exists p, cellRevealed b p = true ∧ cellMine b p = true) ∧
    (isGameOver b = true → status b ≠ InProgress) ∧
    (status b = Lost → isGameOver b = true) ∧
    (isGameWon b = false → (isGameOver b = true ↔ status b ≠ InProgress)) ∧
    (status b ≠ InProgress ↔ isGameOver b = true ∨ isGameWon b = true).
Proof.
  split; [apply constructed_corner|].
  apply (isGameOver_spec corner_board). apply constructed_corner.
Defined.

(** * Further properties of the code *)

(** ** Vectors are determined by their entries *)

Lemma at2_lookup {A : Type} (d : A) (g : list (list A)) (i j : nat) row v :
  g !! i = Some row → row !! j = Some v →
  at2 d g (Z.of_nat i) (Z.of_nat j) = v.
Proof.
  intros Hrow Hv. unfold at2.
  replace ((Z.of_nat i <? 0) || (Z.of_nat j <? 0)) with false
    by (symmetry; apply orb_false_intro; apply Z.ltb_ge; lia).
  by rewrite !Nat2Z.id, Hrow, Hv.
Qed.

Lemma grid_ext {A : Type} (d : A) (r c : Z) (g g' : list (list A)) :
  dims r c g → dims r c g' →
  (forall x y, at2 d g x y = at2 d g' x y) → g = g'.
Proof.
  intros [Hlen Hrows] [Hlen' Hrows'] Hsame.
  rewrite Forall_forall in Hrows, Hrows'.
  apply list_eq. intros i.
  destruct (g !! i) as [row|] eqn:Ei.
  - destruct (lookup_lt_is_Some_2 g' i) as [row' Ei'].
    { apply lookup_lt_Some in Ei. lia. }
    rewrite Ei'. f_equal. apply list_eq. intros j.
    assert (length row = length row') as Hl.
    { rewrite (Hrows row), (Hrows' row'); [done| |];
        by eapply list_elem_of_lookup_2. }
    destruct (row !! j) as [v|] eqn:Ej.
    + destruct (lookup_lt_is_Some_2 row' j) as [v' Ej'].
      { apply lookup_lt_Some in Ej. lia. }
      rewrite Ej'. f_equal.
      rewrite <- (at2_lookup d g i j row v Ei Ej).
      rewrite <- (at2_lookup d g' i j row' v' Ei' Ej'). apply Hsame.
    + symmetry. apply lookup_ge_None. apply lookup_ge_None in Ej. lia.
  - symmetry. apply lookup_ge_None. apply lookup_ge_None in Ei. lia.
Qed.

(** ** Boards of a started game *)

Lemma started_constructed b : started b → constructed b.
Proof. intros (fuel & rnd & r & c & mines & _ & _ & _ & H). by exists fuel, rnd, r, c, mines. Qed.

Lemma started_sound b :
  started b →
  sound b ∧ gameOver b = false ∧ gameWon b = false ∧
  forall p, cellRevealed b p = false ∧ cellFlagged b p = false.
Proof.
  intros Hb. pose proof (started_constructed b Hb) as Hcon.
  destruct Hb as (fuel & rnd & r & c & mines & (Hr & Hc & Hm) & Hfit & Hrnd & Hnew).
  assert (forall p, cellRevealed b p = false ∧ cellFlagged b p = false
                    ∧ gameOver b = false ∧ gameWon b = false) as Hfresh
    by (intros p; by apply constructed_fresh).
  destruct (Hfresh (0, 0)) as (_ & _ & Ho & Hw).
  split_and!; try done; [|intros p; by destruct (Hfresh p) as (? & ? & _)].
  apply Minesweeper_new_Ok in Hnew as (_ & _ & g & Hp & ->).
  unfold placeMines in Hp.
  assert (Z.of_nat (mineCount r c (fill2 r c 0)) = 0) as Hzero
    by by rewrite mineCount_fill2.
  destruct (placeMines_loop_count r c mines Hr Hc rnd fuel Hrnd _ _ _ _
              (dims_fill2 r c 0) Hzero ltac:(lia) Hp) as [Hd Hcount].
  destruct (calculateNumbers_spec r c g Hd) as (_ & Hs & _).
  unfold sound. simpl. split_and!.
  - by apply constructed_consistent.
  - done.
  - by rewrite (mineCount_same r c g).
  - lia.
Qed.

(** A call changes neither the dimensions, nor the mine count, nor the
    grid, and reveals but never hides. *)
Lemma exec_static b cmd b' :
  wf b → exec b cmd = Some b' →
  rows b' = rows b ∧ cols b' = cols b ∧ totalMines b' = totalMines b ∧
  grid b' = grid b ∧
  (forall p, cellRevealed b p = true → cellRevealed b' p = true).
Proof.
  intros Hwf. destruct cmd as [x y|x y|]; simpl.
  - intros Hcall.
    destruct (revealCell_spec _ b x y b' Hwf Hcall)
      as (((Hr & Hc & Ht & Hg & _) & _ & Hmono & _) & _). done.
  - intros [= <-].
    destruct (toggleFlag_spec b x y Hwf)
      as (_ & Hr & Hc & Ht & Hg & Hrev & _).
    split_and!; try done. intros p. unfold cellRevealed. by rewrite Hrev.
  - intros [= <-]. destruct (checkWin_board b) as [->|[_ ->]]; done.
Qed.

Lemma exec_sound b cmd b' : sound b → exec b cmd = Some b' → sound b'.
Proof.
  intros (Hcon & Hfit & Hmines & Hlt) Hexec.
  destruct (exec_static b cmd b' (proj1 Hcon) Hexec) as (Hr & Hc & Ht & Hg & _).
  unfold sound. rewrite Hr, Hc, Ht, Hg. split_and!; try done.
  by eapply exec_consistent.
Qed.

Lemma play_sound cmds :
  forall b b', sound b → play b cmds = Some b' → sound b'.
Proof.
  induction cmds as [|cmd cmds IH]; intros b b' Hb; simpl.
  - by intros [= <-].
  - destruct (exec b cmd) as [b1|] eqn:E; [|discriminate].
    apply IH. by eapply exec_sound.
Qed.

Lemma play_static cmds :
  forall b b', consistent b → play b cmds = Some b' →
  rows b' = rows b ∧ cols b' = cols b ∧ totalMines b' = totalMines b ∧
  grid b' = grid b ∧
  (forall p, cellRevealed b p = true → cellRevealed b' p = true).
Proof.
  induction cmds as [|cmd cmds IH]; intros b b' Hb; simpl.
  - by intros [= <-].
  - destruct (exec b cmd) as [b1|] eqn:E; [|discriminate]. intros Hplay.
    destruct (exec_static b cmd b1 (proj1 Hb) E) as (Hr & Hc & Ht & Hg & Hm).
    destruct (IH b1 b' (exec_consistent _ _ _ Hb E) Hplay)
      as (Hr' & Hc' & Ht' & Hg' & Hm').
    split_and!; try congruence. auto.
Qed.

(** On a sound board the [int] arithmetic of [checkWin] is exact, and the
    target [rows * cols - totalMines] is the number of safe cells. *)
Lemma checkWin_allSafe b :
  sound b → (checkWin b).1 = true ↔ allSafeRevealed b.
Proof.
  intros (((Hr & Hc & _) & _) & Hfit & Hmines & Hlt).
  set (safe := fun p => cellRevealed b p && negb (cellMine b p)).
  set (nomine := fun p => negb (cellMine b p)).
  assert ((checkWin_counts b).1
          = Z.of_nat (count safe (allCells (rows b) (cols b)))) as Hcount
    by by apply revealedCount_spec.
  pose proof (length_allCells (rows b) (cols b) Hr Hc) as Hlen.
  assert (count (fun p => cellMine b p) (allCells (rows b) (cols b))
          + count nomine (allCells (rows b) (cols b))
          = length (allCells (rows b) (cols b)))%nat as Hsplit
    by apply (count_negb (fun p => cellMine b p)).
  pose proof (count_le_length safe (allCells (rows b) (cols b))) as Hle.
  assert (0 <= rows b * cols b) as Hnonneg by by apply Z.mul_nonneg_nonneg.
  unfold mineCount in Hmines.
  change (fun p : cell => isMine (grid b) p.1 p.2)
    with (fun p : cell => cellMine b p) in Hmines.
  assert ((checkWin b).1 = true ↔
          count safe (allCells (rows b) (cols b))
          = count nomine (allCells (rows b) (cols b))) as ->.
  { unfold checkWin. rewrite Hcount. unfold Int.mul.
    pose proof (win_test_exact (rows b * cols b) (totalMines b)
                  (Z.of_nat (count safe (allCells (rows b) (cols b)))))
      as Hexact.
    destruct (Z.of_nat (count safe _) =? _) eqn:E; simpl.
    - apply Z.eqb_eq, Hexact in E; [|int_bounds; lia..].
      split; [intros _|done]. lia.
    - apply Z.eqb_neq in E. split; [done|]. intros Heq. exfalso. apply E.
      apply Hexact; [int_bounds; lia..|]. lia. }
  split.
  - intros Heq [x y] Hv Hm.
    destruct (cellRevealed b (x, y)) eqn:Erev; [done|exfalso].
    assert (count safe (allCells (rows b) (cols b))
            < count nomine (allCells (rows b) (cols b)))%nat; [|lia].
    apply (count_strict _ _ _ (x, y)).
    + intros q _. unfold safe, nomine. by intros [_ ?]%andb_prop.
    + by apply elem_of_allCells.
    + unfold safe. by rewrite Erev.
    + unfold nomine. by rewrite Hm.
  - intros Hall. apply count_ext. intros [x y] Hin. unfold safe, nomine.
    apply elem_of_allCells in Hin.
    destruct (cellMine b (x, y)) eqn:Em; [by rewrite andb_false_r|].
    by rewrite (Hall (x, y)).
Qed.

(** ** Flags *)

(** X1: toggling the flag of the same cell twice gives back the board,
    whatever the cell (also out of bounds or revealed, where both calls do
    nothing). *)
Theorem toggleFlag_twice b x y :
  wf b → toggleFlag (toggleFlag b x y) x y = b.
Proof.
  intros Hwf. destruct Hwf as (Hr & Hc & Hg & Hrev & Hfl).
  unfold toggleFlag at 2.
  destruct (negb (isValid (rows b) (cols b) x y)
            || at2 false (revealed b) x y) eqn:Eguard.
  - unfold toggleFlag. by rewrite Eguard.
  - unfold toggleFlag. simpl. rewrite Eguard.
    apply orb_false_elim in Eguard as [Hv _].
    apply negb_false_iff, isValid_bounds in Hv as [Hx Hy].
    rewrite (at2_put2_eq false (flagged b) (rows b) (cols b)) by done.
    rewrite negb_involutive.
    assert (put2 (put2 (flagged b) x y (negb (at2 false (flagged b) x y)))
                 x y (at2 false (flagged b) x y) = flagged b) as Hback.
    { apply (grid_ext false (rows b) (cols b)); [by do 2 apply dims_put2|done|].
      intros x' y'. destruct (decide ((x, y) = (x', y'))) as [Heq|Hne].
      - inversion Heq; subst x' y'. eapply at2_put2_eq; [|done..].
        by apply dims_put2.
      - by rewrite !at2_put2_ne. }
    unfold set_flagged. simpl. rewrite Hback. by destruct b.
Qed.

Lemma toggleFlag_twice_witness :
  toggleFlag (toggleFlag corner_board 0 0) 0 0 = corner_board.
Proof.
  apply (toggleFlag_twice corner_board 0 0).
  apply constructed_wf. exists 1%nat, (fun _ => 0), 2, 2, 1. reflexivity.
Defined.

(** ** Reveal *)

(** X2: a second reveal of the same cell changes nothing. *)
Theorem reveal_twice b x y b' :
  wf b → reveal b x y = Some b' → reveal b' x y = Some b'.
Proof.
  intros Hwf Hcall.
  assert (hidden b' (x, y) = false) as Hh'.
  { destruct (hidden b (x, y)) eqn:Eh.
    - destruct (revealCell_spec _ b x y b' Hwf Hcall) as (_ & _ & Hself).
      unfold hidden. rewrite (Hself Eh). by rewrite andb_false_r.
    - unfold reveal, revealFuel in Hcall. rewrite revealCell_S, Eh in Hcall.
      by inversion Hcall; subst. }
  unfold reveal, revealFuel. by rewrite revealCell_S, Hh'.
Qed.

Lemma reveal_twice_witness :
  exists b', reveal strip_board 0 0 = Some b' ∧ reveal b' 0 0 = Some b'.
Proof.
  eexists. split; [reflexivity|].
  eapply (reveal_twice strip_board 0 0); [|reflexivity].
  apply constructed_wf. exists 1%nat, (fun k => nth k [0; 3] 0), 1, 4, 1.
  reflexivity.
Defined.

Lemma cascade_nonzero_start b p q :
  cellNumber b p ≠ 0 → cascade b p q → q = p.
Proof.
  intros Hnz. induction 1 as [|q q' _ IH Hz _ _]; [done|].
  rewrite IH in Hz. done.
Qed.

Lemma reveal_gameOver_cases b x y b' :
  wf b → numbered b → reveal b x y = Some b' →
  (gameOver b' = true ↔
   gameOver b = true ∨
   (isValid (rows b) (cols b) x y = true ∧ cellRevealed b (x, y) = false ∧
    cellFlagged b (x, y) = false ∧ cellMine b (x, y) = true)).
Proof.
  intros Hwf Hnum Hcall.
  destruct (revealCell_spec _ b x y b' Hwf Hcall)
    as ((_ & _ & _ & Hnew & Hover) & _ & Hself).
  rewrite Hover. split.
  - intros [?|(p & Hp & Hm)]; [by left|right].
    pose proof (Hnew p Hp) as Hcas.
    destruct (decide (cellNumber b (x, y) = 0)) as [Hz|Hnz].
    + destruct (cascade_in_region b (x, y) p Hnum Hz Hcas) as [Hsafe _].
      congruence.
    + apply cascade_nonzero_start in Hcas as Heq; [|done]. subst p.
      apply cascade_start_hidden, hidden_true in Hcas as (? & ? & ?). done.
  - intros [?|(Hv & Hunrev & Hunfl & Hm)]; [by left|right].
    exists (x, y). split; [|done]. split; [|done].
    apply Hself. by apply hidden_true.
Qed.

(** X3: on a board with correct numbers a reveal ends the game exactly when
    the cell clicked is itself a mine that the call is allowed to reveal:
    the flood fill never uncovers a mine. *)
Theorem reveal_loses_iff_mine_clicked b x y b' :
  wf b → numbered b → reveal b x y = Some b' →
  (gameOver b' = true ↔
   gameOver b = true ∨
   (isValid (rows b) (cols b) x y = true ∧ cellRevealed b (x, y) = false ∧
    cellFlagged b (x, y) = false ∧ cellMine b (x, y) = true)).
Proof. apply reveal_gameOver_cases. Qed.

Lemma reveal_loses_iff_mine_clicked_witness :
  exists b',
    reveal corner_board 0 0 = Some b' ∧
    (gameOver b' = true ↔
     gameOver corner_board = true ∨
     (isValid (rows corner_board) (cols corner_board) 0 0 = true ∧
      cellRevealed corner_board (0, 0) = false ∧
      cellFlagged corner_board (0, 0) = false ∧
      cellMine corner_board (0, 0) = true)).
Proof.
  assert (constructed corner_board) as Hc
    by (exists 1%nat, (fun _ => 0), 2, 2, 1; reflexivity).
  eexists. split; [reflexivity|].
  apply (reveal_loses_iff_mine_clicked corner_board 0 0).
  - by apply constructed_wf.
  - by apply constructed_numbered.
  - reflexivity.
Defined.

(** Two boards with the same fields are equal. *)
Lemma board_eq b b' :
  unchangedBut b b' → revealed b' = revealed b → gameOver b' = gameOver b →
  b' = b.
Proof.
  intros (Hr & Hc & Ht & Hg & Hf & Hw) Hrev Ho.
  destruct b, b'. simpl in *. by subst.
Qed.

(** The cells revealed after two reveals in a row. *)
Lemma reveal_two b x1 y1 b1 x2 y2 b2 :
  wf b → reveal b x1 y1 = Some b1 → reveal b1 x2 y2 = Some b2 →
  reveals b (fun _ => True) b2 ∧
  forall q, cellRevealed b2 q = true ↔
            cellRevealed b q = true ∨ cascade b (x1, y1) q
            ∨ cascade b (x2, y2) q.
Proof.
  intros Hwf Hcall1 Hcall2.
  destruct (revealCell_spec _ b x1 y1 b1 Hwf Hcall1) as (Hrev1 & Hcl1 & _).
  assert (wf b1) as Hwf1 by apply Hrev1.
  destruct (revealCell_spec _ b1 x2 y2 b2 Hwf1 Hcall2) as (Hrev2 & _ & _).
  pose proof (revealCell_revealed _ b x1 y1 b1 Hwf Hcall1) as Hchar1.
  pose proof (revealCell_revealed _ b1 x2 y2 b2 Hwf1 Hcall2) as Hchar2.
  split.
  { eapply reveals_trans; eapply reveals_weaken; eauto. }
  intros q. rewrite Hchar2, Hchar1. split.
  - intros [[?|?]|Hq]; auto. right. right. by eapply cascade_anti.
  - intros [?|[?|Hq]]; auto.
    rewrite <- Hchar1.
    induction Hq as [Hh|q q' Hq IH Hz Hn Hh].
    + destruct (cellRevealed b1 (x2, y2)) eqn:E; [by left|right].
      apply cascade_refl. apply hidden_true in Hh as (Hv & _ & Hfl).
      destruct Hrev1 as ((Hr & Hc & _ & _ & Hf & _) & _).
      apply hidden_true. unfold cellValid, cellFlagged in *.
      by rewrite Hr, Hc, Hf.
    + apply hidden_true in Hh as Hh'. destruct Hh' as (Hv' & Hunrev' & Hfl').
      destruct (cellRevealed b1 q') eqn:E'; [by left|right].
      destruct Hrev1 as ((Hr & Hc & _ & Hg & Hf & _) & _).
      assert (hidden b1 q' = true) as Hh1.
      { apply hidden_true. unfold cellValid, cellFlagged in *.
        by rewrite Hr, Hc, Hf. }
      destruct IH as [Hq1|Hq1].
      * apply cascade_end_hidden, hidden_true in Hq as (_ & Hunrev & _).
        rewrite (Hcl1 q q') in E'; done.
      * eapply cascade_step; eauto. unfold cellNumber in *. by rewrite Hg.
Qed.

(** X4: two reveals commute: revealing two cells in either order gives the
    same board. *)
Theorem reveal_commute b x1 y1 x2 y2 b12 b21 b1 b2 :
  wf b →
  reveal b x1 y1 = Some b1 → reveal b1 x2 y2 = Some b12 →
  reveal b x2 y2 = Some b2 → reveal b2 x1 y1 = Some b21 →
  b12 = b21.
Proof.
  intros Hwf H1 H12 H2 H21.
  destruct (reveal_two b x1 y1 b1 x2 y2 b12 Hwf H1 H12)
    as ((Hsame & Hwf12 & _ & _ & Hover) & Hchar).
  destruct (reveal_two b x2 y2 b2 x1 y1 b21 Hwf H2 H21)
    as ((Hsame' & Hwf21 & _ & _ & Hover') & Hchar').
  assert (forall q, cellRevealed b12 q = cellRevealed b21 q) as Hrev.
  { intros q. apply eq_true_iff_eq. rewrite Hchar, Hchar'. tauto. }
  assert (unchangedBut b21 b12) as Hsame12.
  { unfold unchangedBut in *. destruct_and!. split_and!; congruence. }
  apply board_eq; [done| |].
  - destruct Hwf12 as (_ & _ & _ & Hd12 & _).
    destruct Hwf21 as (_ & _ & _ & Hd21 & _).
    destruct Hsame12 as (Hr & Hc & _).
    apply (grid_ext false (rows b12) (cols b12)); [done|by rewrite Hr, Hc|].
    intros x y. apply (Hrev (x, y)).
  - apply eq_true_iff_eq. rewrite Hover, Hover'.
    unfold newlyRevealed. setoid_rewrite Hrev. done.
Qed.

Lemma reveal_commute_witness :
  exists b1 b2 b12 b21,
    reveal strip_board 0 3 = Some b1 ∧ reveal b1 0 0 = Some b12 ∧
    reveal strip_board 0 0 = Some b2 ∧ reveal b2 0 3 = Some b21 ∧
    b12 = b21.
Proof.
  do 4 eexists. split_and!; [reflexivity..|].
  eapply (reveal_commute strip_board 0 3 0 0); [|reflexivity..].
  apply constructed_wf. exists 1%nat, (fun k => nth k [0; 3] 0), 1, 4, 1.
  reflexivity.
Defined.

(** ** What a game never changes *)

(** X5: whatever is called on a constructed board and in whatever order,
    every call returns, the dimensions, the mine count and the grid stay
    as constructed (no cell changes its kind or number), and a revealed
    cell stays revealed. *)
Theorem play_keeps_grid b0 cmds :
  constructed b0 →
  exists b,
    play b0 cmds = Some b ∧
    rows b = rows b0 ∧ cols b = cols b0 ∧ totalMines b = totalMines b0 ∧
    grid b = grid b0 ∧
    forall cmds' b',
      play b cmds' = Some b' →
      forall p, cellRevealed b p = true → cellRevealed b' p = true.
Proof.
  intros Hb0. apply constructed_consistent in Hb0.
  destruct (play_total cmds b0 Hb0) as [b Hplay]. exists b.
  destruct (play_static cmds b0 b Hb0 Hplay) as (Hr & Hc & Ht & Hg & _).
  split_and!; try done. intros cmds' b' Hplay'.
  pose proof (play_consistent cmds b0 b Hb0 Hplay) as Hb.
  by destruct (play_static cmds' b b' Hb Hplay') as (_ & _ & _ & _ & ?).
Qed.

Lemma play_keeps_grid_witness :
  exists b,
    play corner_board [Reveal 1 1; ToggleFlag 0 0; EvaluateWin] = Some b ∧
    rows b = rows corner_board ∧ cols b = cols corner_board ∧
    totalMines b = totalMines corner_board ∧ grid b = grid corner_board ∧
    forall cmds' b',
      play b cmds' = Some b' →
      forall p, cellRevealed b p = true → cellRevealed b' p = true.
Proof.
  apply (play_keeps_grid corner_board).
  exists 1%nat, (fun _ => 0), 2, 2, 1. reflexivity.
Defined.

(** X6: the grid keeps the encoding its declaration documents: at every
    cell of a constructed board, and of every board of the game played on
    it, the entry is -1 (a mine) or a number from 0 to 8. *)
Theorem grid_entries_in_range b0 cmds b x y :
  constructed b0 → play b0 cmds = Some b →
  isValid (rows b) (cols b) x y = true →
  at2 0 (grid b) x y = -1 ∨ 0 <= at2 0 (grid b) x y <= 8.
Proof.
  intros Hb0 Hplay Hv. apply constructed_consistent in Hb0.
  destruct (play_consistent cmds b0 b Hb0 Hplay) as (_ & Hnum & _).
  destruct (isMine (grid b) x y) eqn:Em.
  - left. by apply Z.eqb_eq.
  - right. pose proof (Hnum (x, y) Hv Em) as Hn.
    pose proof (adjacentMines_le_8 (rows b) (cols b) (grid b) x y) as H8.
    unfold cellNumber in Hn. simpl in Hn. lia.
Qed.

Lemma grid_entries_in_range_witness :
  at2 0 (grid corner_board) 0 1 = -1 ∨ 0 <= at2 0 (grid corner_board) 0 1 <= 8.
Proof.
  apply (grid_entries_in_range corner_board [] corner_board 0 1);
    [|reflexivity..].
  exists 1%nat, (fun _ => 0), 2, 2, 1. reflexivity.
Defined.

(** ** Mine placement: the edges *)

Lemma mineCount_le_cells r c g :
  0 <= r → 0 <= c → Z.of_nat (mineCount r c g) <= r * c.
Proof.
  intros Hr Hc. rewrite <- length_allCells by done.
  apply inj_le, count_le_length.
Qed.

Lemma placeMines_loop_starves rnd r c total fuel :
  0 < r → 0 < c → (forall k, 0 <= rnd k) → r * c < total →
  forall k placed g,
  dims r c g → Z.of_nat (mineCount r c g) = placed →
  placeMines_loop fuel rnd r c total k placed g = OutOfFuel.
Proof.
  intros Hr Hc Hrnd Hmany.
  induction fuel as [|fuel IH]; intros k placed g Hd Hcount; simpl;
    pose proof (mineCount_le_cells r c g ltac:(lia) ltac:(lia)) as Hle;
    replace (placed <? total) with true by (symmetry; apply Z.ltb_lt; lia);
    [done|].
  rewrite sizes_nonzero by done.
  set (x := Z.rem (rnd k) r). set (y := Z.rem (rnd (S k)) c).
  assert (isValid r c x y = true) as Hv.
  { apply isValid_bounds. split; apply Z.rem_bound_pos; auto with lia. }
  destruct (at2 0 g x y =? -1) eqn:Em; simpl.
  - by apply IH.
  - apply IH; [by apply dims_put2|].
    rewrite mineCount_put_mine by done. lia.
Qed.

(** X7: asked for more mines than the board has cells, the placement loop
    never returns, whatever the draws: every cell ends up mined and the
    loop keeps sampling. *)
Theorem placeMines_too_many_mines rnd r c mines fuel :
  0 < r → 0 < c → (forall k, 0 <= rnd k) → r * c < mines →
  placeMines fuel rnd r c mines (fill2 r c 0) = OutOfFuel ∧
  Minesweeper_new fuel rnd r c mines = OutOfFuel.
Proof.
  intros Hr Hc Hrnd Hmany.
  assert (placeMines fuel rnd r c mines (fill2 r c 0) = OutOfFuel) as Hloop.
  { apply placeMines_loop_starves; try done; [apply dims_fill2|].
    by rewrite mineCount_fill2. }
  split; [done|]. unfold Minesweeper_new. rewrite Hloop.
  replace ((r <? 0) || (c <? 0)) with false; [done|].
  symmetry. apply orb_false_intro; apply Z.ltb_ge; lia.
Qed.

Lemma placeMines_too_many_mines_witness :
  placeMines 50 (fun k => Z.of_nat k) 2 2 5 (fill2 2 2 0) = OutOfFuel ∧
  Minesweeper_new 50 (fun k => Z.of_nat k) 2 2 5 = OutOfFuel.
Proof.
  apply (placeMines_too_many_mines (fun k => Z.of_nat k) 2 2 5 50);
    [lia|lia|intros k; lia|lia].
Defined.

(** Every mine that the loop adds lies where a draw pointed. *)
Lemma placeMines_loop_mines r c total fuel :
  forall rnd placed g g' x y,
  placeMines_loop fuel rnd r c total 0%nat placed g = Ok g' →
  isMine g' x y = true →
  isMine g x y = true ∨ (x, y) ∈ draws rnd r c fuel.
Proof.
  induction fuel as [|fuel IH]; intros rnd placed g g' x y; simpl;
    destruct (placed <? total); try discriminate;
    try (intros [= <-]; by left).
  destruct ((r =? 0) || (c =? 0)); [discriminate|].
  rewrite draws_S.
  destruct (at2 0 g _ _ =? -1) eqn:Em; simpl;
    rewrite (placeMines_loop_shift rnd r c total _ 2 0);
    intros Hloop Hmine;
    destruct (IH _ _ _ _ _ _ Hloop Hmine) as [Hold|Hin];
    try (right; by right); try (by left).
  destruct (decide ((Z.rem (rnd 0%nat) r, Z.rem (rnd 1%nat) c) = (x, y)))
    as [Heq|Hne].
  - right. rewrite Heq. left.
  - left. unfold isMine in *. by rewrite at2_put2_ne in Hold.
Qed.

(** X8: the mines of a constructed board are among the cells that the
    stream of draws pointed to during the placement, and there are as many
    of them as were asked for. *)
Theorem mines_are_drawn_cells fuel rnd r c mines b x y :
  validConfig r c mines → (forall k, 0 <= rnd k) →
  Minesweeper_new fuel rnd r c mines = Ok b →
  Z.of_nat (mineCount (rows b) (cols b) (grid b)) = mines ∧
  (isValid (rows b) (cols b) x y = true → isMine (grid b) x y = true →
   (x, y) ∈ draws rnd r c fuel).
Proof.
  intros (Hr & Hc & Hm) Hrnd Hnew.
  apply Minesweeper_new_Ok in Hnew as (_ & _ & g & Hp & ->). simpl.
  unfold placeMines in Hp.
  assert (Z.of_nat (mineCount r c (fill2 r c 0)) = 0) as Hzero
    by by rewrite mineCount_fill2.
  destruct (placeMines_loop_count r c mines Hr Hc rnd fuel Hrnd _ _ _ _
              (dims_fill2 r c 0) Hzero ltac:(lia) Hp) as [Hd Hcount].
  destruct (calculateNumbers_spec r c g Hd) as (_ & Hs & _).
  split; [by rewrite (mineCount_same r c g)|].
  intros Hv Hmine. rewrite (Hs x y Hv) in Hmine.
  destruct (placeMines_loop_mines _ _ _ _ _ _ _ _ _ _ Hp Hmine) as [Hold|?];
    [|done].
  apply isValid_bounds in Hv as [Hx Hy].
  unfold isMine in Hold. by rewrite at2_fill2 in Hold.
Qed.

Lemma mines_are_drawn_cells_witness :
  Z.of_nat (mineCount (rows corner_board) (cols corner_board)
                      (grid corner_board)) = 1 ∧
  (isValid (rows corner_board) (cols corner_board) 0 0 = true →
   isMine (grid corner_board) 0 0 = true →
   (0, 0) ∈ draws (fun _ => 0) 2 2 1).
Proof.
  apply (mines_are_drawn_cells 1 (fun _ => 0) 2 2 1 corner_board 0 0).
  - unfold validConfig. lia.
  - intros k. lia.
  - reflexivity.
Defined.

(** ** Numbers *)

(** X9: the numbers that [calculateNumbers] writes depend only on where
    the mines are, not on what the other cells held before: on two grids
    with the same mines it gives the same entries, and running it again on
    its own result changes no entry. *)
Theorem calculateNumbers_only_mines r c g g' x y :
  dims r c g → dims r c g' → sameMines r c g g' →
  isValid r c x y = true →
  at2 0 (calculateNumbers r c g) x y = at2 0 (calculateNumbers r c g') x y ∧
  at2 0 (calculateNumbers r c (calculateNumbers r c g)) x y
  = at2 0 (calculateNumbers r c g) x y.
Proof.
  assert (forall g g', dims r c g → dims r c g' → sameMines r c g g' →
    at2 0 (calculateNumbers r c g) x y = at2 0 (calculateNumbers r c g') x y
    ∨ isValid r c x y = false) as Hmain.
  { intros h h' Hd Hd' Hsame.
    destruct (isValid r c x y) eqn:Hv; [left|by right].
    destruct (calculateNumbers_spec r c h Hd) as (_ & Hs & Hnum).
    destruct (calculateNumbers_spec r c h' Hd') as (_ & Hs' & Hnum').
    assert (sameMines r c (calculateNumbers r c h) (calculateNumbers r c h'))
      as Hboth.
    { intros x' y' Hv'. by rewrite Hs', Hs, Hsame. }
    destruct (isMine (calculateNumbers r c h) x y) eqn:Em.
    - pose proof Em as Em'. rewrite <- (Hboth x y Hv) in Em'.
      unfold isMine in Em, Em'. apply Z.eqb_eq in Em, Em'. congruence.
    - pose proof Em as Em'. rewrite <- (Hboth x y Hv) in Em'.
      rewrite Hnum, Hnum' by done. f_equal.
      symmetry. by apply adjacentMines_same. }
  intros Hd Hd' Hsame Hv. split.
  - destruct (Hmain g g' Hd Hd' Hsame); [done|congruence].
  - destruct (calculateNumbers_spec r c g Hd) as (Hdc & Hs & _).
    destruct (Hmain (calculateNumbers r c g) g Hdc Hd); [|done|congruence].
    intros x' y' Hv'. symmetry. by apply Hs.
Qed.

Lemma calculateNumbers_only_mines_witness :
  at2 0 (calculateNumbers 2 2 [[-1; 0]; [0; 0]]) 1 1
  = at2 0 (calculateNumbers 2 2 [[-1; 7]; [3; 5]]) 1 1 ∧
  at2 0 (calculateNumbers 2 2 (calculateNumbers 2 2 [[-1; 0]; [0; 0]])) 1 1
  = at2 0 (calculateNumbers 2 2 [[-1; 0]; [0; 0]]) 1 1.
Proof.
  apply (calculateNumbers_only_mines 2 2 [[-1; 0]; [0; 0]] [[-1; 7]; [3; 5]]).
  - split; [reflexivity|]. repeat constructor.
  - split; [reflexivity|]. repeat constructor.
  - intros x y Hv. apply isValid_bounds in Hv as [Hx Hy].
    assert (x = 0 ∨ x = 1) as [-> | ->] by lia;
      assert (y = 0 ∨ y = 1) as [-> | ->] by lia; reflexivity.
  - reflexivity.
Defined.

(** ** The menu *)

(** X10: custom settings that are valid and whose product fits in an [int]
    are returned as entered; a choice other than 1 to 4 gives the beginner
    preset. *)
Theorem getDifficultySettings_keeps_valid choice r c m :
  (choice = 4 → validConfig r c m → r * c <= Int.max_int →
   getDifficultySettings choice r c m = (r, c, m)) ∧
  (choice ≠ 1 → choice ≠ 2 → choice ≠ 3 → choice ≠ 4 →
   getDifficultySettings choice r c m = (9, 9, 10)).
Proof.
  split.
  - intros -> (Hr & Hc & Hm) Hfit. unfold getDifficultySettings. simpl.
    replace ((r <=? 0) || (c <=? 0) || (m <=? 0) || (Int.mul r c <=? m))
      with false; [done|].
    symmetry. unfold Int.mul. rewrite wrap_in_range by (int_bounds; lia).
    repeat (apply orb_false_intro); apply Z.leb_gt; lia.
  - intros H1 H2 H3 H4. unfold getDifficultySettings.
    apply Z.eqb_neq in H1, H2, H3, H4. by rewrite H1, H2, H3, H4.
Qed.

Lemma getDifficultySettings_keeps_valid_witness :
  getDifficultySettings 4 5 6 7 = (5, 6, 7) ∧
  getDifficultySettings 0 5 6 7 = (9, 9, 10).
Proof.
  split.
  - apply (getDifficultySettings_keeps_valid 4 5 6 7); [done| |].
    + unfold validConfig. lia.
    + unfold Int.max_int. lia.
  - apply (getDifficultySettings_keeps_valid 0 5 6 7); done.
Defined.

(** ** Winning *)

Lemma count_positive {A : Type} (f : A → bool) (l : list A) :
  (0 < count f l)%nat → exists a, a ∈ l ∧ f a = true.
Proof.
  induction l as [|a l IH]; simpl; [lia|]. intros Hpos.
  destruct (f a) eqn:Efa.
  - exists a. split; [left|done].
  - destruct IH as (a' & Ha' & Hfa'); [lia|]. exists a'. split; [by right|done].
Qed.

(** A sound board has a cell that is not a mine. *)
Lemma sound_safe_cell b :
  sound b → exists p, cellValid b p = true ∧ cellMine b p = false.
Proof.
  intros (((Hr & Hc & _) & _) & _ & Hmines & Hlt).
  pose proof (length_allCells (rows b) (cols b) Hr Hc) as Hlen.
  pose proof (count_negb (fun p : cell => isMine (grid b) p.1 p.2)
                (allCells (rows b) (cols b))) as Hsplit.
  unfold mineCount in Hmines.
  assert (0 < count (fun a : cell => negb (isMine (grid b) a.1 a.2))
                    (allCells (rows b) (cols b)))%nat as Hpos by lia.
  destruct (count_positive _ _ Hpos) as ([x y] & Hin & Hsafe).
  exists (x, y). split; [by apply elem_of_allCells|].
  by apply negb_true_iff in Hsafe.
Qed.

Lemma allSafeRevealed_mono b b' :
  rows b' = rows b → cols b' = cols b → grid b' = grid b →
  (forall p, cellRevealed b p = true → cellRevealed b' p = true) →
  allSafeRevealed b → allSafeRevealed b'.
Proof.
  intros Hr Hc Hg Hmono Hall p. unfold cellValid, cellMine.
  rewrite Hr, Hc, Hg. intros Hv Hm. by apply Hmono, Hall.
Qed.

Lemma play_allSafe cmds b b' :
  consistent b → play b cmds = Some b' →
  allSafeRevealed b → allSafeRevealed b'.
Proof.
  intros Hb Hplay.
  destruct (play_static cmds b b' Hb Hplay) as (Hr & Hc & _ & Hg & Hmono).
  by apply allSafeRevealed_mono.
Qed.

(** [gameWon] is only ever set on a board whose safe cells are revealed. *)
Lemma exec_won b cmd b' :
  sound b → exec b cmd = Some b' →
  (gameWon b = true → allSafeRevealed b) →
  (gameWon b' = true → allSafeRevealed b').
Proof.
  intros Hb Hexec Hinv.
  destruct (exec_static b cmd b' (proj1 (proj1 Hb)) Hexec)
    as (Hr & Hc & _ & Hg & Hmono).
  destruct cmd as [x y|x y|]; simpl in Hexec.
  - destruct (revealCell_spec _ b x y b' (proj1 (proj1 Hb)) Hexec)
      as (((_ & _ & _ & _ & _ & Hw) & _) & _).
    rewrite Hw. intros H. by apply (allSafeRevealed_mono b), Hinv.
  - inversion Hexec; subst b'.
    destruct (toggleFlag_spec b x y (proj1 (proj1 Hb)))
      as (_ & _ & _ & _ & _ & _ & _ & Hw & _).
    rewrite Hw. intros H. by apply (allSafeRevealed_mono b), Hinv.
  - inversion Hexec as [Heq]. rewrite Heq.
    destruct (checkWin_board b) as [Hsame|[Hwin _]].
    + rewrite Hsame in Heq. subst b'. done.
    + intros _. apply (allSafeRevealed_mono b); try done.
      by apply checkWin_allSafe.
Qed.

Lemma play_won cmds :
  forall b b', sound b → play b cmds = Some b' →
  (gameWon b = true → allSafeRevealed b) →
  (gameWon b' = true → allSafeRevealed b').
Proof.
  induction cmds as [|cmd cmds IH]; intros b b' Hb; simpl.
  - by intros [= <-].
  - destruct (exec b cmd) as [b1|] eqn:E; [|discriminate]. intros Hplay Hinv.
    apply (IH b1); [by eapply exec_sound|done|by eapply exec_won].
Qed.

(** X11: in every state of a game started from a valid configuration,
    checkWin returns true exactly when every cell that is not a mine is
    revealed; a fresh board is not won. *)
Theorem checkWin_iff_all_safe b0 cmds :
  started b0 →
  (checkWin b0).1 = false ∧
  exists b,
    play b0 cmds = Some b ∧
    ((checkWin b).1 = true ↔ allSafeRevealed b).
Proof.
  intros Hb0. destruct (started_sound b0 Hb0) as (Hs0 & _ & _ & Hfresh).
  split.
  - apply not_true_is_false. intros Hwin.
    apply (checkWin_allSafe b0 Hs0) in Hwin.
    destruct (sound_safe_cell b0 Hs0) as (p & Hv & Hm).
    destruct (Hfresh p) as [Hunrev _]. rewrite (Hwin p Hv Hm) in Hunrev. done.
  - destruct (play_total cmds b0 (proj1 Hs0)) as [b Hplay]. exists b.
    split; [done|]. apply checkWin_allSafe. by eapply play_sound.
Qed.

Lemma started_corner : started corner_board.
Proof.
  exists 1%nat, (fun _ => 0), 2, 2, 1. unfold validConfig, Int.max_int.
  split_and!; first [lia | reflexivity | intros k; lia].
Qed.

Lemma checkWin_iff_all_safe_witness :
  (checkWin corner_board).1 = false ∧
  exists b,
    play corner_board [Reveal 0 1; Reveal 1 0; Reveal 1 1] = Some b ∧
    ((checkWin b).1 = true ↔ allSafeRevealed b).
Proof. apply (checkWin_iff_all_safe corner_board). apply started_corner. Defined.

(** X12: a win is never lost again: isGameWon() is true only on boards
    whose safe cells are all revealed, and once they are, they stay so and
    checkWin keeps returning true whatever is called afterwards. *)
Theorem win_is_stable b0 cmds1 cmds2 b1 b2 :
  started b0 → play b0 cmds1 = Some b1 → play b1 cmds2 = Some b2 →
  (isGameWon b1 = true → allSafeRevealed b1) ∧
  (allSafeRevealed b1 →
   allSafeRevealed b2 ∧ (checkWin b1).1 = true ∧ (checkWin b2).1 = true).
Proof.
  intros Hb0 Hplay1 Hplay2.
  destruct (started_sound b0 Hb0) as (Hs0 & _ & Hw0 & _).
  pose proof (play_sound cmds1 b0 b1 Hs0 Hplay1) as Hs1.
  pose proof (play_sound cmds2 b1 b2 Hs1 Hplay2) as Hs2.
  split.
  - apply (play_won cmds1 b0 b1 Hs0 Hplay1). by rewrite Hw0.
  - intros Hall. pose proof (play_allSafe cmds2 b1 b2 (proj1 Hs1) Hplay2 Hall).
    split_and!; [done|by apply checkWin_allSafe..].
Qed.

Lemma win_is_stable_witness :
  exists b1 b2,
    play corner_board [Reveal 0 1; Reveal 1 0; Reveal 1 1; EvaluateWin]
      = Some b1 ∧
    play b1 [Reveal 0 0; ToggleFlag 1 1; EvaluateWin] = Some b2 ∧
    (isGameWon b1 = true → allSafeRevealed b1) ∧
    (allSafeRevealed b1 →
     allSafeRevealed b2 ∧ (checkWin b1).1 = true ∧ (checkWin b2).1 = true).
Proof.
  do 2 eexists. split; [reflexivity|]. split; [reflexivity|].
  eapply (win_is_stable corner_board
            [Reveal 0 1; Reveal 1 0; Reveal 1 1; EvaluateWin]
            [Reveal 0 0; ToggleFlag 1 1; EvaluateWin]);
    [apply started_corner|reflexivity..].
Defined.

(** ** Statistics and display *)

Lemma count_pair_fold (f1 f2 : cell → bool) (l : list cell) :
  forall acc : Z * Z,
  0 <= acc.1 → 0 <= acc.2 →
  acc.1 + Z.of_nat (length l) <= Int.max_int →
  acc.2 + Z.of_nat (length l) <= Int.max_int →
  foldl (fun acc p => (if f1 p then Int.add acc.1 1 else acc.1,
                       if f2 p then Int.add acc.2 1 else acc.2)) acc l
  = (acc.1 + Z.of_nat (count f1 l), acc.2 + Z.of_nat (count f2 l)).
Proof.
  induction l as [|p l IH]; intros [a1 a2] H1 H2 Hfit1 Hfit2; simpl in *.
  - f_equal; lia.
  - assert (Int.add a1 1 = a1 + 1) as Hinc1
      by (apply wrap_in_range; int_bounds; lia).
    assert (Int.add a2 1 = a2 + 1) as Hinc2
      by (apply wrap_in_range; int_bounds; lia).
    rewrite IH; simpl; destruct (f1 p), (f2 p); rewrite ?Hinc1, ?Hinc2;
      try lia; f_equal; lia.
Qed.

Lemma displayStats_counts_spec b :
  0 <= rows b → 0 <= cols b → rows b * cols b <= Int.max_int →
  displayStats_counts b
  = (Z.of_nat (count (cellFlagged b) (allCells (rows b) (cols b))),
     Z.of_nat (count (cellRevealed b) (allCells (rows b) (cols b)))).
Proof.
  intros Hr Hc Hfit.
  pose proof (length_allCells (rows b) (cols b) Hr Hc) as Hlen.
  transitivity
    (foldl (fun acc p => (if cellFlagged b p then Int.add acc.1 1 else acc.1,
                          if cellRevealed b p then Int.add acc.2 1 else acc.2))
           (0, 0) (allCells (rows b) (cols b))).
  - unfold displayStats_counts, allCells. rewrite foldl_bind.
    apply foldl_ext. intros acc i. by rewrite foldl_fmap.
  - rewrite count_pair_fold; simpl; [done|lia..].
Qed.

Lemma count_disjoint {A : Type} (f h : A → bool) (l : list A) :
  (forall a, a ∈ l → f a = true → h a = false) →
  (count f l + count h l <= length l)%nat.
Proof.
  induction l as [|a l IH]; intros Hdis; simpl; [lia|].
  assert (count f l + count h l <= length l)%nat as Hle.
  { apply IH. intros a' Ha'. apply Hdis. by right. }
  destruct (f a) eqn:Efa; [rewrite (Hdis a) by (done || left)|];
    destruct (h a); simpl; lia.
Qed.

Lemma allSafe_count b :
  allSafeRevealed b ↔
  count (fun p => cellRevealed b p && negb (cellMine b p))
        (allCells (rows b) (cols b))
  = count (fun p => negb (cellMine b p)) (allCells (rows b) (cols b)).
Proof.
  split.
  - intros Hall. apply count_ext. intros [x y] Hin.
    apply elem_of_allCells in Hin.
    destruct (cellMine b (x, y)) eqn:Em; [by rewrite andb_false_r|].
    by rewrite (Hall (x, y)).
  - intros Heq [x y] Hv Hm.
    destruct (cellRevealed b (x, y)) eqn:Erev; [done|exfalso].
    assert (count (fun p => cellRevealed b p && negb (cellMine b p))
                  (allCells (rows b) (cols b))
            < count (fun p => negb (cellMine b p))
                    (allCells (rows b) (cols b)))%nat; [|lia].
    apply (count_strict _ _ _ (x, y)).
    + intros q _. by intros [_ ?]%andb_prop.
    + by apply elem_of_allCells.
    + by rewrite Erev.
    + by rewrite Hm.
Qed.

(** X13: in every state of a game started from a valid configuration,
    displayStats prints the mine count, the number of flagged cells, the
    number of revealed cells and the number of cells that are not mines;
    flags and revealed cells together never exceed the number of cells;
    and while no mine has been revealed, the game is won exactly when the
    last two numbers printed are equal. *)
Theorem displayStats_spec b0 cmds :
  started b0 →
  exists b,
    play b0 cmds = Some b ∧
    displayStats b
    = (totalMines b,
       Z.of_nat (count (cellFlagged b) (allCells (rows b) (cols b))),
       Z.of_nat (count (cellRevealed b) (allCells (rows b) (cols b))),
       Z.of_nat (count (fun p => negb (cellMine b p))
                       (allCells (rows b) (cols b)))) ∧
    (displayStats b).1.1.2 + (displayStats b).1.2 <= rows b * cols b ∧
    (isGameOver b = false →
     ((checkWin b).1 = true ↔ (displayStats b).1.2 = (displayStats b).2)).
Proof.
  intros Hb0. destruct (started_sound b0 Hb0) as (Hs0 & _).
  destruct (play_total cmds b0 (proj1 Hs0)) as [b Hplay]. exists b.
  pose proof (play_sound cmds b0 b Hs0 Hplay) as Hs.
  pose proof Hs as Hsound.
  destruct Hs as (Hcon & Hfit & Hmines & Hlt).
  destruct Hcon as (Hwf & Hnum & Hexcl & Hover).
  destruct Hwf as (Hr & Hc & Hdims).
  pose proof (length_allCells (rows b) (cols b) Hr Hc) as Hlen.
  pose proof (count_negb (fun p => cellMine b p)
                (allCells (rows b) (cols b))) as Hsplit.
  assert (count (fun p => cellMine b p) (allCells (rows b) (cols b))
          = mineCount (rows b) (cols b) (grid b)) as Hmc by done.
  assert (0 <= rows b * cols b) as Hnonneg by by apply Z.mul_nonneg_nonneg.
  assert (displayStats b
          = (totalMines b,
             Z.of_nat (count (cellFlagged b) (allCells (rows b) (cols b))),
             Z.of_nat (count (cellRevealed b) (allCells (rows b) (cols b))),
             Z.of_nat (count (fun p => negb (cellMine b p))
                             (allCells (rows b) (cols b))))) as Hstats.
  { unfold displayStats. rewrite displayStats_counts_spec by done. simpl.
    f_equal. unfold Int.sub, Int.mul.
    rewrite (wrap_in_range (rows b * cols b)) by (int_bounds; lia).
    rewrite wrap_in_range by (int_bounds; lia). lia. }
  split; [done|]. split; [done|]. rewrite Hstats. simpl. split.
  - rewrite <- Hlen, <- Nat2Z.inj_add. apply inj_le, count_disjoint.
    intros p _ Hf. destruct (cellRevealed b p) eqn:E; [|done].
    apply Hexcl in E. congruence.
  - unfold isGameOver. intros Hnot.
    assert (count (cellRevealed b) (allCells (rows b) (cols b))
            = count (fun p => cellRevealed b p && negb (cellMine b p))
                    (allCells (rows b) (cols b))) as Hrev.
    { apply count_ext. intros p _.
      destruct (cellRevealed b p) eqn:Er, (cellMine b p) eqn:Em; try done.
      assert (gameOver b = true) by (apply Hover; by exists p). congruence. }
    rewrite Hrev, Nat2Z.inj_iff, <- allSafe_count.
    by apply checkWin_allSafe.
Qed.

Lemma displayStats_spec_witness :
  exists b,
    play corner_board [ToggleFlag 0 0; Reveal 1 1] = Some b ∧
    displayStats b
    = (totalMines b,
       Z.of_nat (count (cellFlagged b) (allCells (rows b) (cols b))),
       Z.of_nat (count (cellRevealed b) (allCells (rows b) (cols b))),
       Z.of_nat (count (fun p => negb (cellMine b p))
                       (allCells (rows b) (cols b)))) ∧
    (displayStats b).1.1.2 + (displayStats b).1.2 <= rows b * cols b ∧
    (isGameOver b = false →
     ((checkWin b).1 = true ↔ (displayStats b).1.2 = (displayStats b).2)).
Proof. apply (displayStats_spec corner_board). apply started_corner. Defined.

Lemma showsMine_cell b showMines :
  showsMine (displayGrid b showMines) →
  exists i j, isValid (rows b) (cols b) i j = true
              ∧ displayCell b showMines i j = GMine.
Proof.
  intros (row & Hrow & Hg). unfold displayGrid in Hrow. simpl in Hrow.
  apply list_elem_of_fmap in Hrow as (i & -> & Hi). simpl in Hg.
  apply list_elem_of_fmap in Hg as (j & Hg & Hj).
  apply elem_of_seqZ in Hi, Hj. exists i, j. split; [|done].
  apply isValid_bounds. lia.
Qed.

Lemma displayCell_mine b i j :
  displayCell b false i j = GMine →
  cellRevealed b (i, j) = true ∧ cellFlagged b (i, j) = false
  ∧ cellMine b (i, j) = true.
Proof.
  unfold displayCell, cellRevealed, cellFlagged, cellMine, isMine. simpl.
  destruct (at2 false (flagged b) i j), (at2 false (revealed b) i j),
    (at2 0 (grid b) i j =? -1), (at2 0 (grid b) i j =? 0); simpl;
    done.
Qed.

Lemma display_no_mine b :
  consistent b → gameOver b = false → ¬ showsMine (displayGrid b false).
Proof.
  intros (_ & _ & _ & Hover) Hnot Hshow.
  apply showsMine_cell in Hshow as (i & j & _ & Hcell).
  apply displayCell_mine in Hcell as (Hr & _ & Hm).
  assert (gameOver b = true) by (apply Hover; by exists (i, j)). congruence.
Qed.

(** X14: in every state of a game in which no mine has been revealed yet
    (isGameOver() is false), the normal display shows no mine, and what it
    shows for a cell that is not revealed (a flag or a dot) does not depend
    on what the cell holds. *)
Theorem displayGrid_hides_mines b0 cmds b :
  constructed b0 → play b0 cmds = Some b → isGameOver b = false →
  ¬ showsMine (displayGrid b false) ∧
  forall i j, cellRevealed b (i, j) = false →
    displayCell b false i j
    = if cellFlagged b (i, j) then GFlag else GHidden.
Proof.
  intros Hb0 Hplay Hnot. apply constructed_consistent in Hb0.
  pose proof (play_consistent cmds b0 b Hb0 Hplay) as Hb.
  split.
  - by apply display_no_mine.
  - intros i j Hunrev. unfold displayCell.
    change (at2 false (flagged b) i j) with (cellFlagged b (i, j)).
    change (at2 false (revealed b) i j) with (cellRevealed b (i, j)).
    rewrite Hunrev. by destruct (cellFlagged b (i, j)).
Qed.

Lemma displayGrid_hides_mines_witness :
  exists b,
    play corner_board [Reveal 1 1; ToggleFlag 0 0] = Some b ∧
    ¬ showsMine (displayGrid b false) ∧
    forall i j, cellRevealed b (i, j) = false →
      displayCell b false i j
      = if cellFlagged b (i, j) then GFlag else GHidden.
Proof.
  eexists. split; [reflexivity|].
  eapply (displayGrid_hides_mines corner_board [Reveal 1 1; ToggleFlag 0 0]);
    [|reflexivity..].
  exists 1%nat, (fun _ => 0), 2, 2, 1. reflexivity.
Defined.

(** ** The game loop *)

Lemma checkWin_cases b :
  checkWin b = (true, set_gameWon b true) ∨ checkWin b = (false, b).
Proof. unfold checkWin. destruct (_ =? _); [by left|by right]. Qed.

Lemma afterCommand_checkWin b : afterCommand b = (checkWin b).2.
Proof.
  unfold afterCommand. by destruct (checkWin_cases b) as [-> | ->].
Qed.

(** The win check at the end of an iteration re-establishes [inGame]. *)
Lemma afterCommand_inGame b :
  sound b → gameWon b = false →
  (gameOver b = true → ¬ allSafeRevealed b) →
  inGame (afterCommand b).
Proof.
  intros Hs Hw Hlost. rewrite afterCommand_checkWin.
  pose proof (checkWin_allSafe b Hs) as Hwin.
  destruct (checkWin_cases b) as [Hc|Hc]; rewrite Hc in *; simpl in *.
  - assert (allSafeRevealed b) as Hall by by apply Hwin.
    unfold inGame. split_and!.
    + apply (exec_sound b EvaluateWin); [done|]. simpl. by rewrite Hc.
    + done.
    + simpl. intros Ho. by destruct (Hlost Ho).
  - unfold inGame. split_and!; try done. rewrite Hw, <- Hwin. done.
Qed.

Lemma reveal_inGame b x y b1 :
  inGame b → gameOver b = false → gameWon b = false →
  reveal b x y = Some b1 → inGame (afterCommand b1).
Proof.
  intros (Hs & Hwon & _) Ho Hw Hcall.
  pose proof Hs as (Hcon & _). destruct Hcon as (Hwf & Hnum & _).
  destruct (revealCell_spec _ b x y b1 Hwf Hcall)
    as (((Hr & Hc & _ & Hg & _ & Hw1) & _) & _).
  apply afterCommand_inGame.
  - by apply (exec_sound b (Reveal x y)).
  - by rewrite Hw1.
  - intros Ho1 Hall.
    assert (¬ allSafeRevealed b) as Hnot by (rewrite <- Hwon; congruence).
    apply Hnot. intros p Hv Hm.
    apply (reveal_gameOver_cases b x y b1 Hwf Hnum Hcall) in Ho1
      as [?|(_ & _ & _ & Hmine)]; [congruence|].
    assert (cellRevealed b1 p = true) as Hp1.
    { apply Hall; unfold cellValid, cellMine; by rewrite ?Hr, ?Hc, ?Hg. }
    apply (revealCell_revealed _ b x y b1 Hwf Hcall) in Hp1 as [?|Hcas];
      [done|].
    apply cascade_nonzero_start in Hcas; [subst p; congruence|].
    unfold cellMine, isMine in Hmine. apply Z.eqb_eq in Hmine.
    unfold cellNumber. rewrite Hmine. done.
Qed.

Lemma toggleFlag_inGame b x y :
  inGame b → gameOver b = false → gameWon b = false →
  inGame (afterCommand (toggleFlag b x y)).
Proof.
  intros (Hs & Hwon & _) Ho Hw.
  destruct (toggleFlag_spec b x y (proj1 (proj1 Hs)))
    as (_ & _ & _ & _ & _ & _ & Ho' & Hw' & _).
  apply afterCommand_inGame.
  - by apply (exec_sound b (ToggleFlag x y)).
  - by rewrite Hw'.
  - rewrite Ho'. congruence.
Qed.

Lemma playGame_loop_over b ins :
  negb (gameOver b) && negb (gameWon b) = false →
  playGame_loop b ins
  = ([ShowGrid (displayGrid b true);
      Say (if gameWon b then Congratulations else HitAMine)], b, Finished).
Proof. intros H. destruct ins; simpl; by rewrite H. Qed.

(** Events written in front of a run do not change its result. *)
Lemma loopResult_prefix b b1 cmds pre evs b' e :
  play b cmds = Some b1 →
  (forall d, ShowGrid d ∈ pre → ¬ showsMine d) →
  loopResult b1 (evs, b', e) → loopResult b (pre ++ evs, b', e).
Proof.
  intros Hplay Hpre (Hdeep & Hin & (cmds' & Hplay') & Hfin & Hnot & Hshow).
  unfold loopResult. simpl in *. split_and!; try done.
  - exists (cmds ++ cmds'). revert Hplay. clear -Hplay'. revert b.
    induction cmds as [|cmd cmds IH]; intros b; simpl.
    + by intros [= ->].
    + destruct (exec b cmd); [apply IH|discriminate].
  - intros He. destruct (Hfin He) as (Hflags & evs0 & ->).
    split; [done|]. exists (pre ++ evs0). by rewrite app_assoc.
  - intros d Hd. apply elem_of_app in Hd as [Hd|Hd]; [left; by apply Hpre|].
    by apply Hshow.
Qed.

Lemma playGame_loop_spec ins :
  forall b, inGame b → loopResult b (playGame_loop b ins).
Proof.
  induction ins as [|i ins IH]; intros b Hin;
    destruct (negb (gameOver b) && negb (gameWon b)) eqn:Egoing.
  2,4: rewrite playGame_loop_over by done;
    apply andb_false_iff in Egoing;
    unfold loopResult; simpl; split_and!;
    [done|done|by exists []
    |intros _; split; [destruct Egoing as [E|E]; apply negb_false_iff in E;
                       auto|by exists []]
    |done
    |intros d Hd; right; split; [done|];
     rewrite !elem_of_cons in Hd; destruct Hd as [[= ->]|[?|Hd]];
     [done|done|by apply elem_of_nil in Hd]].
  all: apply andb_prop in Egoing as [Ho Hw];
    apply negb_true_iff in Ho, Hw;
    pose proof Hin as (Hs & _);
    pose proof (display_no_mine b (proj1 Hs) Ho) as Hclean;
    assert (forall pre, (forall d, ShowGrid d ∈ pre → False) →
      forall d, ShowGrid d ∈ [ShowGrid (displayGrid b false);
                              ShowStats (displayStats b);
                              Say EnterCommand] ++ pre →
      ¬ showsMine d) as Hshown
      by (intros pre Hpre d Hd; rewrite elem_of_app, !elem_of_cons in Hd;
          destruct Hd as [[[= ->]|[?|[?|Hd]]]|Hd];
          [done|done|done|by apply elem_of_nil in Hd|by destruct (Hpre d)]).
  - (* no input left *)
    simpl. rewrite Ho, Hw. simpl. unfold loopResult. simpl.
    split_and!; try done; [by exists []|].
    intros d Hd. left. apply (Hshown []); [intros ? H; by apply elem_of_nil in H|].
    by rewrite app_nil_r.
  - destruct i as [|x y|x y|]; simpl; rewrite Ho, Hw; simpl.
    + (* q *)
      unfold loopResult. simpl. split_and!; try done; [by exists []|].
      intros d Hd. left. apply (Hshown [Say ThanksForPlaying]); [|done].
      intros d' Hd'. rewrite elem_of_cons in Hd'.
      destruct Hd' as [?|Hd']; [done|by apply elem_of_nil in Hd'].
    + (* r x y *)
      destruct (isValid (rows b) (cols b) x y) eqn:Ev; simpl.
      * destruct (reveal_total b x y (proj1 (proj1 Hs))) as [b1 Hcall].
        rewrite Hcall.
        pose proof (IH _ (reveal_inGame b x y b1 Hin Ho Hw Hcall)) as Hrec.
        destruct (playGame_loop (afterCommand b1) ins) as [[evs b'] e].
        apply (loopResult_prefix b (afterCommand b1)
                 [Reveal x y; EvaluateWin]
                 [ShowGrid (displayGrid b false); ShowStats (displayStats b);
                  Say EnterCommand]); [| |done].
        -- simpl. rewrite Hcall. simpl. by rewrite afterCommand_checkWin.
        -- intros d Hd. apply (Hshown []);
             [intros ? H; by apply elem_of_nil in H|by rewrite app_nil_r].
      * pose proof (IH b Hin) as Hrec.
        destruct (playGame_loop b ins) as [[evs b'] e].
        apply (loopResult_prefix b b []
                 [ShowGrid (displayGrid b false); ShowStats (displayStats b);
                  Say EnterCommand; Say InvalidCoordinates]); [done| |done].
        intros d Hd. apply (Hshown [Say InvalidCoordinates]); [|done].
        intros d' Hd'. rewrite elem_of_cons in Hd'.
        destruct Hd' as [?|Hd']; [done|by apply elem_of_nil in Hd'].
    + (* f x y *)
      destruct (isValid (rows b) (cols b) x y) eqn:Ev; simpl.
      * pose proof (IH _ (toggleFlag_inGame b x y Hin Ho Hw)) as Hrec.
        destruct (playGame_loop (afterCommand (toggleFlag b x y)) ins)
          as [[evs b'] e].
        apply (loopResult_prefix b (afterCommand (toggleFlag b x y))
                 [ToggleFlag x y; EvaluateWin]
                 [ShowGrid (displayGrid b false); ShowStats (displayStats b);
                  Say EnterCommand]); [| |done].
        -- simpl. by rewrite afterCommand_checkWin.
        -- intros d Hd. apply (Hshown []);
             [intros ? H; by apply elem_of_nil in H|by rewrite app_nil_r].
      * pose proof (IH b Hin) as Hrec.
        destruct (playGame_loop b ins) as [[evs b'] e].
        apply (loopResult_prefix b b []
                 [ShowGrid (displayGrid b false); ShowStats (displayStats b);
                  Say EnterCommand; Say InvalidCoordinates]); [done| |done].
        intros d Hd. apply (Hshown [Say InvalidCoordinates]); [|done].
        intros d' Hd'. rewrite elem_of_cons in Hd'.
        destruct Hd' as [?|Hd']; [done|by apply elem_of_nil in Hd'].
    + (* another character *)
      pose proof (IH b Hin) as Hrec.
      destruct (playGame_loop b ins) as [[evs b'] e].
      apply (loopResult_prefix b b []
               [ShowGrid (displayGrid b false); ShowStats (displayStats b);
                Say EnterCommand; Say InvalidCommand]); [done| |done].
      intros d Hd. apply (Hshown [Say InvalidCommand]); [|done].
      intros d' Hd'. rewrite elem_of_cons in Hd'.
      destruct Hd' as [?|Hd']; [done|by apply elem_of_nil in Hd'].
Qed.

Lemma started_inGame b : started b → inGame b.
Proof.
  intros Hb. destruct (started_sound b Hb) as (Hs & Ho & Hw & Hfresh).
  unfold inGame. split_and!; [done| |done].
  rewrite Hw. split; [done|]. intros Hall.
  destruct (sound_safe_cell b Hs) as (p & Hv & Hm).
  destruct (Hfresh p) as [Hunrev _]. rewrite (Hall p Hv Hm) in Hunrev. done.
Qed.



(** X16: during such a game no display shows a mine, except the final one,
    printed once the game is over; that one shows every mine. *)
Theorem playGame_shows_mines_at_end b0 ins evs b e :
  started b0 → playGame b0 ins = (evs, b, e) →
  (forall d, ShowGrid d ∈ evs →
     ¬ showsMine d ∨ (e = Finished ∧ d = displayGrid b true)) ∧
  (forall i j, cellMine b (i, j) = true → displayCell b true i j = GMine).
Proof.
  intros Hb0 Hrun. unfold playGame in Hrun.
  pose proof (playGame_loop_spec ins b0 (started_inGame b0 Hb0)) as Hres.
  destruct (playGame_loop b0 ins) as [[evs1 b1] e1].
  inversion Hrun; subst evs b e. clear Hrun.
  destruct Hres as (_ & _ & _ & _ & _ & Hshow). simpl in *. split.
  - intros d Hd. apply elem_of_cons in Hd as [?|Hd]; [done|by apply Hshow].
  - intros i j Hm. unfold displayCell. rewrite !andb_false_r.
    unfold cellMine, isMine in Hm. simpl in Hm. by rewrite Hm.
Qed.

Lemma playGame_shows_mines_at_end_witness :
  exists evs b e,
    playGame corner_board [InReveal 1 1; InReveal 0 0] = (evs, b, e) ∧
    (forall d, ShowGrid d ∈ evs →
       ¬ showsMine d ∨ (e = Finished ∧ d = displayGrid b true)) ∧
    (forall i j, cellMine b (i, j) = true → displayCell b true i j = GMine).
Proof.
  do 3 eexists. split; [vm_compute; reflexivity|].
  apply (playGame_shows_mines_at_end corner_board [InReveal 1 1; InReveal 0 0]);
    [apply started_corner|vm_compute; reflexivity].
Defined.

Lemma getDifficultySettings_started fuel rnd choice r c m b :
  (forall k, 0 <= rnd k) → Int.in_range m →
  (choice = 4 → r * c <= Int.max_int) →
  main_construct fuel rnd choice r c m = Ok b → started b.
Proof.
  intros Hrnd Hm Hfit. unfold main_construct, getDifficultySettings.
  assert (forall r' c' m',
    validConfig r' c' m' → r' * c' <= Int.max_int →
    Minesweeper_new fuel rnd r' c' m' = Ok b → started b) as Hok.
  { intros r' c' m' Hv Hf Hnew. by exists fuel, rnd, r', c', m'. }
  assert (forall r' c' m', (r', c', m') = (9, 9, 10) ∨ (r', c', m') = (16, 16, 40)
            ∨ (r', c', m') = (16, 30, 99) →
          Minesweeper_new fuel rnd r' c' m' = Ok b → started b) as Hpreset.
  { intros r' c' m' Hcase. apply Hok;
      destruct Hcase as [[= -> -> ->]|[[= -> -> ->]|[= -> -> ->]]];
      unfold validConfig, Int.max_int; lia. }
  destruct (choice =? 1); [apply Hpreset; auto|].
  destruct (choice =? 2); [apply Hpreset; auto|].
  destruct (choice =? 3); [apply Hpreset; auto|].
  destruct (choice =? 4) eqn:E4; [|apply Hpreset; auto].
  apply Z.eqb_eq in E4.
  destruct ((r <=? 0) || (c <=? 0) || (m <=? 0) || (Int.mul r c <=? m))
    eqn:Eg; [apply Hpreset; auto|].
  apply Hok; [|auto].
  repeat (apply orb_false_elim in Eg as [Eg ?]).
  repeat match goal with H : (_ <=? _) = false |- _ =>
    apply Z.leb_gt in H end.
  unfold Int.mul in *. rewrite wrap_in_range in * by (int_bounds; nia).
  unfold validConfig. lia.
Qed.

(** X17: whatever is entered at the menu (custom sizes whose product fits
    in an [int]), if [main] gets a board constructed, the game it plays is
    on a board with 0 < mineCount < rows * cols holding exactly mineCount
    mines, no reveal overruns its recursion bound, and if the game loop
    stops, exactly one of isGameOver() and isGameWon() holds. *)
Theorem main_plays_valid_game fuel rnd choice r c m ins evs b e :
  (forall k, 0 <= rnd k) → Int.in_range m →
  (choice = 4 → r * c <= Int.max_int) →
  main fuel rnd choice r c m ins = Ok (evs, b, e) →
  validConfig (rows b) (cols b) (totalMines b) ∧
  Z.of_nat (mineCount (rows b) (cols b) (grid b)) = totalMines b ∧
  e ≠ TooDeep ∧
  (e = Finished → isGameWon b = negb (isGameOver b)).
Proof.
  intros Hrnd Hm Hfit Hmain. unfold main in Hmain.
  destruct (main_construct fuel rnd choice r c m) as [b0| | |] eqn:Econ;
    try discriminate.
  pose proof (getDifficultySettings_started _ _ _ _ _ _ _ Hrnd Hm Hfit Econ)
    as Hb0.
  inversion Hmain as [Hrun]. clear Hmain. unfold playGame in Hrun.
  pose proof (playGame_loop_spec ins b0 (started_inGame b0 Hb0)) as Hres.
  destruct (playGame_loop b0 ins) as [[evs1 b1] e1].
  inversion Hrun; subst evs b e. clear Hrun.
  destruct Hres as (Hdeep & Hin & (cmds & Hplay) & Hfin & _). simpl in *.
  destruct Hin as (Hs & _ & Hexcl).
  destruct (started_sound b0 Hb0) as (Hs0 & _).
  destruct (play_static cmds b0 b1 (proj1 Hs0) Hplay) as (Hr & Hc & Ht & _).
  destruct Hs as (_ & _ & Hmines & _).
  split_and!; try done.
  - destruct Hb0 as (f0 & rnd0 & r0 & c0 & m0 & Hv & _ & _ & Hnew).
    apply Minesweeper_new_Ok in Hnew as (_ & _ & g & _ & ->).
    rewrite Hr, Hc, Ht. done.
  - intros He. destruct (Hfin He) as (Hflags & _).
    unfold isGameWon, isGameOver.
    destruct (gameOver b1) eqn:Eo; [by rewrite (Hexcl eq_refl)|].
    by destruct Hflags as [? | ->].
Qed.

Lemma main_plays_valid_game_witness :
  exists evs b e,
    main 60 (fun k => Z.of_nat k * 7) 4 2 2 1 [InReveal 1 1; InQuit]
      = Ok (evs, b, e) ∧
    validConfig (rows b) (cols b) (totalMines b) ∧
    Z.of_nat (mineCount (rows b) (cols b) (grid b)) = totalMines b ∧
    e ≠ TooDeep ∧
    (e = Finished → isGameWon b = negb (isGameOver b)).
Proof.
  do 3 eexists. split; [vm_compute; reflexivity|].
  eapply (main_plays_valid_game 60 (fun k => Z.of_nat k * 7) 4 2 2 1
            [InReveal 1 1; InQuit]).
  - intros k. lia.
  - unfold Int.in_range, Int.min_int, Int.max_int. lia.
  - intros _. unfold Int.max_int. lia.
  - vm_compute. reflexivity.
Defined.

(** ** Depth of the flood fill, and winning *)

(** X18: the recursion of revealCell is bounded by the board: with more
    nested calls allowed than there are unrevealed cells it always returns,
    and what it returns does not depend on how many more were allowed. *)
Theorem revealCell_depth_bound b x y fuel :
  wf b → (unrevealedCount b < fuel)%nat →
  exists b',
    revealCell fuel b x y = Some b' ∧
    forall fuel' b'', revealCell fuel' b x y = Some b'' → b'' = b'.
Proof.
  intros Hwf Hfuel. destruct (revealCell_total fuel b x y Hwf Hfuel) as [b' Hb'].
  exists b'. split; [done|]. intros fuel' b'' Hb''.
  apply (revealCell_reveal _ _ _ _ _ Hwf) in Hb', Hb''. congruence.
Qed.

Lemma revealCell_depth_bound_witness :
  exists b',
    revealCell 5 strip_board 0 0 = Some b' ∧
    forall fuel' b'', revealCell fuel' strip_board 0 0 = Some b'' → b'' = b'.
Proof.
  apply (revealCell_depth_bound strip_board 0 0 5).
  - apply constructed_wf. exists 1%nat, (fun k => nth k [0; 3] 0), 1, 4, 1.
    reflexivity.
  - vm_compute. lia.
Defined.

Lemma revealSafe_plays (l : list cell) :
  forall b, consistent b → (forall p, cellFlagged b p = false) →
  gameOver b = false →
  exists b',
    play b (revealSafe b l) = Some b' ∧
    consistent b' ∧ (forall p, cellFlagged b' p = false) ∧
    gameOver b' = false ∧
    rows b' = rows b ∧ cols b' = cols b ∧ grid b' = grid b ∧
    (forall p, cellRevealed b p = true → cellRevealed b' p = true) ∧
    (forall p, p ∈ l → cellValid b p = true → cellMine b p = false →
       cellRevealed b' p = true).
Proof.
  induction l as [|[x y] l IH]; intros b Hb Hnofl Ho.
  - exists b. split_and!; try done. intros p Hp. by apply elem_of_nil in Hp.
  - unfold revealSafe. rewrite filter_cons.
    destruct (decide (cellMine b (x, y) = false)) as [Hsafe|Hmine].
    + rewrite fmap_cons. simpl.
      destruct (reveal_total b x y (proj1 Hb)) as [b1 Hcall]. rewrite Hcall.
      pose proof (exec_consistent b (Reveal x y) b1 Hb Hcall) as Hb1.
      destruct Hb as (Hwf & Hnum & _).
      destruct (revealCell_spec _ b x y b1 Hwf Hcall)
        as (((Hr & Hc & _ & Hg & Hf & _) & _ & Hmono & _) & _ & Hself).
      assert (gameOver b1 = false) as Ho1.
      { apply not_true_is_false. intros Hover.
        apply (reveal_gameOver_cases b x y b1 Hwf Hnum Hcall) in Hover
          as [?|(_ & _ & _ & ?)]; congruence. }
      assert (forall p, cellFlagged b1 p = false) as Hnofl1
        by (intros p; unfold cellFlagged; rewrite Hf; apply Hnofl).
      assert (forall p, cellMine b1 p = cellMine b p) as Hmines
        by (intros p; unfold cellMine; by rewrite Hg).
      destruct (IH b1 Hb1 Hnofl1 Ho1)
        as (b' & Hplay & Hb' & Hnofl' & Ho' & Hr' & Hc' & Hg' & Hmono' & Hall').
      exists b'. split_and!; try congruence; auto.
      * unfold revealSafe in Hplay.
        rewrite (list_filter_iff _ (fun p => cellMine b p = false)) in Hplay;
          [done|]. intros p. by rewrite Hmines.
      * intros p Hp Hv Hm. apply elem_of_cons in Hp as [->|Hp].
        -- apply Hmono'. destruct (cellRevealed b (x, y)) eqn:E;
             [by apply Hmono|].
           apply Hself. apply hidden_true. done.
        -- apply Hall'; [done| |by rewrite Hmines].
           unfold cellValid. by rewrite Hr, Hc.
    + destruct (IH b Hb Hnofl Ho)
        as (b' & Hplay & Hb' & Hnofl' & Ho' & Hr' & Hc' & Hg' & Hmono' & Hall').
      exists b'. split_and!; try done.
      intros p Hp Hv Hm. apply elem_of_cons in Hp as [->|Hp]; [done|].
      by apply Hall'.
Qed.

(** X19: every game started from a valid configuration can be won:
    revealing the cells that are not mines, one after the other, never ends
    the game and leaves a board on which checkWin returns true. *)
Theorem game_can_be_won b0 :
  started b0 →
  exists b,
    play b0 (revealSafe b0 (allCells (rows b0) (cols b0))) = Some b ∧
    isGameOver b = false ∧ allSafeRevealed b ∧ (checkWin b).1 = true.
Proof.
  intros Hb0. destruct (started_sound b0 Hb0) as (Hs0 & Ho0 & _ & Hfresh).
  destruct (revealSafe_plays (allCells (rows b0) (cols b0)) b0 (proj1 Hs0)
              (fun p => proj2 (Hfresh p)) Ho0)
    as (b & Hplay & _ & _ & Ho & Hr & Hc & Hg & _ & Hall).
  exists b. split; [done|]. split; [done|].
  assert (allSafeRevealed b) as Hsafe.
  { intros [x y]. unfold cellValid, cellMine. rewrite Hr, Hc, Hg.
    intros Hv Hm. apply Hall; [by apply elem_of_allCells|done..]. }
  split; [done|]. apply checkWin_allSafe; [|done]. by eapply play_sound.
Qed.

Lemma game_can_be_won_witness :
  exists b,
    play corner_board
         (revealSafe corner_board
            (allCells (rows corner_board) (cols corner_board))) = Some b ∧
    isGameOver b = false ∧ allSafeRevealed b ∧ (checkWin b).1 = true.
Proof. apply (game_can_be_won corner_board). apply started_corner. Defined.
